(** * fv3-jedi-tools: the cube-sphere raster plotter (src/raster/raster.py)

    A shallow embedding of the field assembly, the value range, the cross
    atlas and the polygon loop of [raster.py], with the properties of its
    specification stated over that embedding.

    Conventions of the embedding.
    - Field values are exact rationals ([Qc]); rounding of IEEE doubles is
      not modelled.  The cross atlas additionally holds [np.inf], so its
      cells have type [fval].
    - A numpy array of rank two is a record with its shape and its rows;
      the tile axis of a rank-three array is a list of such records.
    - A Python exception is a value [Raise e] of the type [result]; a loop
      stops at the first exception.
    - [args.average] is a natural number: the specification requires
      [average >= 1] and the script divides by [average**2]. *)

From Stdlib Require Import List Finite Sorted Arith Lia Bool ZArith QArith Qcanon Qcabs.
From Stdlib Require String Ascii Decimal DecimalNat DecimalString.
Import ListNotations.

Set Implicit Arguments.

Local Open Scope nat_scope.

(** ** Exceptions *)

Inductive exn : Type :=
| IndexError
| ValueError
| NameError
| ZeroDivisionError.

Inductive result (A : Type) : Type :=
| Ok (a : A)
| Raise (e : exn).

Arguments Ok {A} a.
Arguments Raise {A} e.

Definition bind {A B : Type} (m : result A) (k : A -> result B) : result B :=
  match m with
  | Ok a => k a
  | Raise e => Raise e
  end.

Notation "x <- m ;; k" := (bind m (fun x => k))
  (at level 61, m at next level, right associativity).

(** A [for] loop whose body may raise: the state is threaded from left to
    right and the first exception ends the loop. *)
Fixpoint foldM {S X : Type} (body : S -> X -> result S) (xs : list X) (s : S)
  : result S :=
  match xs with
  | [] => Ok s
  | x :: xs' => s' <- body s x ;; foldM body xs' s'
  end.

(** [range(0, stop)] and [range(0, stop, step)] of Python.  A zero step
    raises [ValueError]. *)
Definition range (stop : nat) : list nat := seq 0 stop.

Definition origins (stop step : nat) : list nat :=
  map (fun k => k * step) (seq 0 ((stop + step - 1) / step)).

Definition range_step (stop step : nat) : result (list nat) :=
  if step =? 0 then Raise ValueError
  else Ok (origins stop step).

(** ** The part of numpy the script uses *)

Module Np.

Class Dflt (A : Type) : Type := dflt : A.

Record ndarray2 (A : Type) : Type := mk_nd {
  nrows : nat;
  ncols : nat;
  cells : list (list A)
}.

Section Arrays.
Context {A : Type} {dA : Dflt A}.

Definition shape (a : ndarray2 A) : nat * nat := (nrows a, ncols a).

(** The rows agree with the declared shape. *)
Definition wf2 (a : ndarray2 A) : Prop :=
  length (cells a) = nrows a /\
  Forall (fun r => length r = ncols a) (cells a).

Definition tabulate2 (R C : nat) (f : nat -> nat -> A) : ndarray2 A :=
  mk_nd R C (map (fun i => map (fun j => f i j) (seq 0 C)) (seq 0 R)).

(** [np.full((R, C), x)]. *)
Definition full (R C : nat) (x : A) : ndarray2 A :=
  tabulate2 R C (fun _ _ => x).

(** The element at an index that is known to be in range. *)
Definition getd (a : ndarray2 A) (i j : nat) : A :=
  nth j (nth i (cells a) []) dflt.

(** [a[i, j]] for non-negative [i], [j]: numpy checks the index against
    the shape and raises [IndexError] outside it. *)
Definition getitem2 (a : ndarray2 A) (i j : nat) : result A :=
  if (i <? nrows a) && (j <? ncols a) then Ok (getd a i j)
  else Raise IndexError.

(** [np.flip(a, 0)], [np.flip(a, 1)] and [np.transpose(a)]. *)
Definition flip0 (a : ndarray2 A) : ndarray2 A :=
  tabulate2 (nrows a) (ncols a) (fun i j => getd a (nrows a - 1 - i) j).

Definition flip1 (a : ndarray2 A) : ndarray2 A :=
  tabulate2 (nrows a) (ncols a) (fun i j => getd a i (ncols a - 1 - j)).

Definition transpose (a : ndarray2 A) : ndarray2 A :=
  tabulate2 (ncols a) (nrows a) (fun i j => getd a j i).

(** [np.rot90(a, k)], as numpy composes it from flips and a transpose. *)
Definition rot90 (a : ndarray2 A) (k : nat) : ndarray2 A :=
  match k mod 4 with
  | 0 => a
  | 1 => transpose (flip1 a)
  | 2 => flip0 (flip1 a)
  | _ => flip1 (transpose a)
  end.

(** Broadcasting of one axis of length [s] to length [d]. *)
Definition bc_axis (s d : nat) : bool := (s =? d) || (s =? 1).

Definition bc_ok (s d : nat * nat) : bool :=
  bc_axis (fst s) (fst d) && bc_axis (snd s) (snd d).

Definition bc_index (s i : nat) : nat := if s =? 1 then 0 else i.

(** [np.broadcast_to(a, (R, C))]: [ValueError] when an axis of [a] is
    neither of the requested length nor of length one. *)
Definition broadcast_to (a : ndarray2 A) (R C : nat) : result (ndarray2 A) :=
  if bc_ok (shape a) (R, C)
  then Ok (tabulate2 R C
             (fun i j => getd a (bc_index (nrows a) i) (bc_index (ncols a) j)))
  else Raise ValueError.

(** The bounds of the slice [lo:hi] on an axis of length [n]. *)
Definition slice_bounds (lo hi n : nat) : nat * nat :=
  let hi' := Nat.min hi n in (Nat.min lo hi', hi').

Definition in_range (lo hi i : nat) : bool := (lo <=? i) && (i <? hi).

(** [dst[r0:r1, c0:c1] = src]: the source is broadcast to the shape of
    the slice and copied into it. *)
Definition setslice (dst : ndarray2 A) (r0 r1 c0 c1 : nat) (src : ndarray2 A)
  : result (ndarray2 A) :=
  let '(rl, rh) := slice_bounds r0 r1 (nrows dst) in
  let '(cl, ch) := slice_bounds c0 c1 (ncols dst) in
  b <- broadcast_to src (rh - rl) (ch - cl) ;;
  Ok (tabulate2 (nrows dst) (ncols dst)
        (fun i j => if in_range rl rh i && in_range cl ch j
                    then getd b (i - rl) (j - cl)
                    else getd dst i j)).

Definition map_nd {B : Type} (f : A -> B) (a : ndarray2 A) : ndarray2 B :=
  mk_nd (nrows a) (ncols a) (map (map f) (cells a)).

End Arrays.

End Np.

Import Np.

(** ** Values and fields *)

(** A cell of the cross atlas: a field value or [np.inf]. *)
Inductive fval : Type :=
| Fin (q : Qc)
| Inf.

#[export] Instance dflt_Qc : Dflt Qc := 0%Qc.
#[export] Instance dflt_fval : Dflt fval := Inf.
#[export] Instance dflt_nat : Dflt nat := 0.

(** Number of tiles. *)
Definition ntile : nat := 6.

(** An array of rank three, indexed [tile, row, column]. *)
Definition ndarray3 (A : Type) : Type := list (ndarray2 A).

Definition field : Type := ndarray3 Qc.

Section Rank3.
Context {A : Type} {dA : Dflt A}.

(** [a[itile, :, :]] read. *)
Definition gettile (a : ndarray3 A) (itile : nat) : result (ndarray2 A) :=
  match nth_error a itile with
  | Some t => Ok t
  | None => Raise IndexError
  end.

(** [a[itile, i, j]]. *)
Definition getitem3 (a : ndarray3 A) (itile i j : nat) : result A :=
  t <- gettile a itile ;; getitem2 t i j.

Fixpoint list_set {X : Type} (l : list X) (i : nat) (x : X) : list X :=
  match l, i with
  | [], _ => []
  | _ :: t, 0 => x :: t
  | h :: t, S i' => h :: list_set t i' x
  end.

(** [a[itile, :, :] = src]: [src] is broadcast to the shape of the tile. *)
Definition settile (a : ndarray3 A) (itile : nat) (src : ndarray2 A)
  : result (ndarray3 A) :=
  t <- gettile a itile ;;
  b <- broadcast_to src (nrows t) (ncols t) ;;
  Ok (list_set a itile b).

(** Every tile of [a] is a well-formed [ny] by [nx] array, and there are
    [ntile] of them. *)
Definition wf3 (ny nx : nat) (a : ndarray3 A) : Prop :=
  length a = ntile /\
  Forall (fun t => wf2 t /\ nrows t = ny /\ ncols t = nx) a.

End Rank3.

(** [x - y] on arrays, with numpy's broadcasting of the two operands. *)
Definition bc_dim (x y : nat) : result nat :=
  if x =? y then Ok x
  else if x =? 1 then Ok y
  else if y =? 1 then Ok x
  else Raise ValueError.

Definition nd_sub (x y : ndarray2 Qc) : result (ndarray2 Qc) :=
  R <- bc_dim (nrows x) (nrows y) ;;
  C <- bc_dim (ncols x) (ncols y) ;;
  Ok (tabulate2 R C
        (fun i j =>
           (getd x (bc_index (nrows x) i) (bc_index (ncols x) j)
            - getd y (bc_index (nrows y) i) (bc_index (ncols y) j))%Qc)).

(** ** Field assembly, per-tile layout (raster.py, lines 169-204) *)

(** The variables [ny], [nx] and [fld] of the script. *)
Record assembled : Type := mk_assembled {
  a_ny : nat;
  a_nx : nat;
  a_fld : field
}.

(** The body of the first loop: [slices itile] is the slice
    [fdata[variable][0, level-1, :, :]] read from the file of tile
    [itile+1].  Before the first iteration [fld] is unbound. *)
Definition read_tile (slices : nat -> ndarray2 Qc) (st : option assembled)
           (itile : nat) : result (option assembled) :=
  let fld_tmp := slices itile in
  let st :=
    if itile =? 0
    then let ny := nrows fld_tmp in
         let nx := ncols fld_tmp in
         Some (mk_assembled ny nx (repeat (full ny nx 0%Qc) ntile))
    else st in
  match st with
  | Some s =>
      fld <- settile (a_fld s) itile fld_tmp ;;
      Ok (Some (mk_assembled (a_ny s) (a_nx s) fld))
  | None => Raise NameError
  end.

Definition read_tiles (slices : nat -> ndarray2 Qc) : result (option assembled) :=
  foldM (read_tile slices) (range ntile) None.

(** The body of the second loop:
    [fld[itile,:,:] = fld[itile,:,:] - fld_tmp]. *)
Definition subtract_tile (base : nat -> ndarray2 Qc) (fld : field)
           (itile : nat) : result field :=
  let fld_tmp := base itile in
  cur <- gettile fld itile ;;
  d <- nd_sub cur fld_tmp ;;
  settile fld itile d.

Definition subtract_base (base : nat -> ndarray2 Qc) (fld : field) : result field :=
  foldM (subtract_tile base) (range ntile) fld.

Definition assemble (slices : nat -> ndarray2 Qc)
           (basefile : option (nat -> ndarray2 Qc)) : result assembled :=
  st <- read_tiles slices ;;
  match st with
  | None => Raise NameError
  | Some s =>
      match basefile with
      | None => Ok s
      | Some base =>
          fld <- subtract_base base (a_fld s) ;;
          Ok (mk_assembled (a_ny s) (a_nx s) fld)
      end
  end.

(** ** Value range (raster.py, lines 214-219) *)

(** All the values of a field, in storage order. *)
Definition values (fld : field) : list Qc :=
  concat (map (fun t => concat (cells t)) fld).

Definition fmax (x y : Qc) : Qc := if Qle_bool x y then y else x.
Definition fmin (x y : Qc) : Qc := if Qle_bool x y then x else y.

(** [np.max] and [np.min]: [ValueError] on an array without elements. *)
Definition amax (l : list Qc) : result Qc :=
  match l with
  | [] => Raise ValueError
  | x :: xs => Ok (fold_left fmax xs x)
  end.

Definition amin (l : list Qc) : result Qc :=
  match l with
  | [] => Raise ValueError
  | x :: xs => Ok (fold_left fmin xs x)
  end.

Definition compute_range (centered : bool) (fld : field) : result (Qc * Qc) :=
  if centered
  then vmax <- amax (map Qcabs (values fld)) ;;
       Ok ((- vmax)%Qc, vmax)
  else vmin <- amin (values fld) ;;
       vmax <- amax (values fld) ;;
       Ok (vmin, vmax).

(** [normavg = 1.0/args.average**2]. *)
Definition qnat (n : nat) : Qc := Q2Qc (inject_Z (Z.of_nat n)).

Definition compute_normavg (average : nat) : result Qc :=
  if average ^ 2 =? 0 then Raise ZeroDivisionError
  else Ok (1 / qnat (average ^ 2))%Qc.

(** ** Cross representation (raster.py, lines 244-254) *)

(** The six destination slices of [fld_cross], in the order of the six
    assignments: row bounds, then column bounds. *)
Definition cross_blocks (nx ny : nat) : list (nat * nat * (nat * nat)) :=
  [ (1*nx, 2*nx, (1*ny, 2*ny));
    (1*nx, 2*nx, (2*ny, 3*ny));
    (2*nx, 3*nx, (1*ny, 2*ny));
    (1*nx, 2*nx, (3*ny, 4*ny));
    (1*nx, 2*nx, (0*ny, 1*ny));
    (0*nx, 1*nx, (1*ny, 2*ny)) ].

(** The number of quarter turns given to [np.rot90] for each tile. *)
Definition cross_turns : list nat := [0; 0; 3; 1; 1; 0].

Definition in_block (b : nat * nat * (nat * nat)) (i j : nat) : bool :=
  let '(r0, r1, (c0, c1)) := b in in_range r0 r1 i && in_range c0 c1 j.

(** The values of a tile, as atlas cells. *)
Definition as_fval (t : ndarray2 Qc) : ndarray2 fval := map_nd Fin t.

Definition build_cross (nx ny : nat) (fld : field) : result (ndarray2 fval) :=
  let nxc := 3*nx in
  let nyc := 4*ny in
  let fld_cross := full nxc nyc Inf in
  t0 <- gettile fld 0 ;;
  fld_cross <- setslice fld_cross (1*nx) (2*nx) (1*ny) (2*ny) (as_fval t0) ;;
  t1 <- gettile fld 1 ;;
  fld_cross <- setslice fld_cross (1*nx) (2*nx) (2*ny) (3*ny) (as_fval t1) ;;
  t2 <- gettile fld 2 ;;
  fld_cross <- setslice fld_cross (2*nx) (3*nx) (1*ny) (2*ny) (rot90 (as_fval t2) 3) ;;
  t3 <- gettile fld 3 ;;
  fld_cross <- setslice fld_cross (1*nx) (2*nx) (3*ny) (4*ny) (rot90 (as_fval t3) 1) ;;
  t4 <- gettile fld 4 ;;
  fld_cross <- setslice fld_cross (1*nx) (2*nx) (0*ny) (1*ny) (rot90 (as_fval t4) 1) ;;
  t5 <- gettile fld 5 ;;
  fld_cross <- setslice fld_cross (0*nx) (1*nx) (1*ny) (2*ny) (as_fval t5) ;;
  Ok fld_cross.

(** ** Polygon representation (raster.py, lines 257-277) *)

(** A patch added to the axes: the four corners, in order, and the value
    that colours it.  The tile and the origin of the block are kept with
    the patch, so that a property can name the cell a patch was drawn
    for. *)
Record patch : Type := mk_patch {
  p_cell : nat * nat * nat;
  p_xy : list (Qc * Qc);
  p_value : Qc
}.

(** Lines 263-267: the value of the block at [(iy, ix)] of tile [itile].
    Both offsets of the read are [ixa], as in the script. *)
Definition block_value (fld : field) (average : nat) (normavg : Qc)
           (itile iy ix : nat) : result Qc :=
  value <-
    foldM (fun value iya =>
             foldM (fun value ixa =>
                      x <- getitem3 fld itile (iy + ixa) (ix + ixa) ;;
                      Ok (value + x)%Qc)
                   (range average) value)
          (range average) 0%Qc ;;
  Ok (value * normavg)%Qc.

(** [[vlons[itile, i, j], vlats[itile, i, j]]]. *)
Definition vertex (vlons vlats : ndarray3 Qc) (itile i j : nat) : result (Qc * Qc) :=
  lon <- getitem3 vlons itile i j ;;
  lat <- getitem3 vlats itile i j ;;
  Ok (lon, lat).

(** Lines 262-277: the body of the innermost loop over the blocks. *)
Definition draw_block (fld vlons vlats : ndarray3 Qc) (average : nat)
           (threshold normavg : Qc) (itile iy ix : nat) (patches : list patch)
  : result (list patch) :=
  value <- block_value fld average normavg itile iy ix ;;
  if Qle_bool threshold (Qcabs value)
  then
    p0 <- vertex vlons vlats itile (iy + 0) (ix + 0) ;;
    p1 <- vertex vlons vlats itile (iy + 0) (ix + average) ;;
    p2 <- vertex vlons vlats itile (iy + average) (ix + average) ;;
    p3 <- vertex vlons vlats itile (iy + average) (ix + 0) ;;
    Ok (patches ++ [mk_patch (itile, iy, ix) [p0; p1; p2; p3] value])
  else Ok patches.

Definition build_polygons (ny nx : nat) (fld vlons vlats : ndarray3 Qc)
           (average : nat) (threshold normavg : Qc) : result (list patch) :=
  foldM
    (fun patches itile =>
       iys <- range_step ny average ;;
       foldM
         (fun patches iy =>
            ixs <- range_step nx average ;;
            foldM
              (fun patches ix =>
                 draw_block fld vlons vlats average threshold normavg
                            itile iy ix patches)
              ixs patches)
         iys patches)
    (range ntile) [].

(** ** The script from the value range on (raster.py, lines 213-277) *)

Record Args : Type := mk_args {
  centered : bool;
  cross : bool;
  average : nat;
  threshold : Qc
}.

(** What is handed to the renderer. *)
Inductive drawing : Type :=
| Pcolormesh (fld_cross : ndarray2 fval)
| Patches (patches : list patch).

Record figure : Type := mk_figure {
  vmin : Qc;
  vmax : Qc;
  drawn : drawing
}.

Definition raster (args : Args) (ny nx : nat) (fld vlons vlats : ndarray3 Qc)
  : result figure :=
  r <- compute_range (centered args) fld ;;
  normavg <- compute_normavg (average args) ;;
  if cross args
  then
    fld_cross <- build_cross nx ny fld ;;
    Ok (mk_figure (fst r) (snd r) (Pcolormesh fld_cross))
  else
    patches <- build_polygons ny nx fld vlons vlats
                              (average args) (threshold args) normavg ;;
    Ok (mk_figure (fst r) (snd r) (Patches patches)).

(** ** Definitions used to state the properties *)

(** One assignment to a slice, seen from a cell: inside the block the
    source shows, elsewhere what was there before. *)
Definition paint (under : nat -> nat -> fval)
           (bs : nat * nat * (nat * nat) * ndarray2 fval) (i j : nat) : fval :=
  let '(r0, r1, (c0, c1), src) := bs in
  if in_block (r0, r1, (c0, c1)) i j then getd src (i - r0) (j - c0)
  else under i j.

(** What each assignment of [build_cross] copies, in their order. *)
Definition cross_sources (fld : field) : list (ndarray2 fval) :=
  map (fun '(t, k) => rot90 (as_fval t) k) (combine fld cross_turns).

Definition cross_cell (nx ny : nat) (fld : field) : nat -> nat -> fval :=
  fold_left paint (combine (cross_blocks nx ny) (cross_sources fld))
            (fun _ _ => Inf).

(** A value read from the field, as an atlas cell. *)
Definition as_cell (r : result Qc) : result fval := v <- r ;; Ok (Fin v).

(** An integer as a field value. *)
Definition qz (z : Z) : Qc := Q2Qc (inject_Z z).

(** A small field for examples: six copies of the tile [[1,2],[3,4]]. *)
Definition demo_tile : ndarray2 Qc :=
  mk_nd 2 2 [[qz 1; qz 2]; [qz 3; qz 4]].

Definition demo_field : field := repeat demo_tile ntile.

(** The field of the specification's example: the values -3, 5, -1. *)
Definition range_field : field :=
  mk_nd 1 3 ([qz (-3); qz 5; qz (-1)] :: nil) :: nil.

(** The sum that lines 263-266 accumulate, on one tile: the inner loop
    adds the cells [(iy+k, ix+k)], and the outer loop repeats it. *)
Definition diag_add (t : ndarray2 Qc) (average iy ix : nat) (v : Qc) : Qc :=
  fold_left (fun s k => (s + getd t (iy + k) (ix + k))%Qc) (range average) v.

Definition block_sum (t : ndarray2 Qc) (average iy ix : nat) : Qc :=
  fold_left (fun v _ => diag_add t average iy ix v) (range average) 0%Qc.

(** What [draw_block] adds for the block at [(iy, ix)] of tile [itile]
    when no read is out of range. *)
Definition tile_of (a : ndarray3 Qc) (itile : nat) : ndarray2 Qc :=
  nth itile a (full 0 0 0%Qc).

Definition cell_value (fld : field) (average : nat) (normavg : Qc)
           (c : nat * nat * nat) : Qc :=
  let '(itile, iy, ix) := c in
  (block_sum (tile_of fld itile) average iy ix * normavg)%Qc.

Definition corner (vlons vlats : ndarray3 Qc) (itile i j : nat) : Qc * Qc :=
  (getd (tile_of vlons itile) i j, getd (tile_of vlats itile) i j).

Definition corners (vlons vlats : ndarray3 Qc) (average : nat)
           (c : nat * nat * nat) : list (Qc * Qc) :=
  let '(itile, iy, ix) := c in
  [ corner vlons vlats itile iy ix;
    corner vlons vlats itile iy (ix + average);
    corner vlons vlats itile (iy + average) (ix + average);
    corner vlons vlats itile (iy + average) ix ].

Definition emit (fld vlons vlats : ndarray3 Qc) (average : nat)
           (threshold normavg : Qc) (c : nat * nat * nat) : list patch :=
  let value := cell_value fld average normavg c in
  if Qle_bool threshold (Qcabs value)
  then mk_patch c (corners vlons vlats average c) value :: nil
  else nil.

(** The blocks in the order of the three loops. *)
Definition blocks (ny nx average : nat) : list (nat * nat * nat) :=
  list_prod (list_prod (range ntile) (origins ny average)) (origins nx average).



(** A vertex grid for the examples: shape (3, 3) on each tile. *)
Definition demo_grid : ndarray3 Qc :=
  repeat (tabulate2 3 3 (fun i j => qnat (i + 3 * j))) ntile.



(** Slices for the examples: tile 2 of the files has shape (1, 2), the
    others (2, 2); in [bad_slices] tile 2 has shape (3, 2). *)
Definition row_tile : ndarray2 Qc := mk_nd 1 2 ([qz 7; qz 8] :: nil).

Definition tall_tile : ndarray2 Qc :=
  mk_nd 3 2 [[qz 1; qz 2]; [qz 3; qz 4]; [qz 5; qz 6]].

Definition row_slices (itile : nat) : ndarray2 Qc :=
  if itile =? 1 then row_tile else demo_tile.

Definition bad_slices (itile : nat) : ndarray2 Qc :=
  if itile =? 1 then tall_tile else demo_tile.

(** The arithmetic mean of the [average * average] cells of the block at
    [(iy, ix)], as the specification words it. *)
Definition block_mean (t : ndarray2 Qc) (average iy ix : nat) : Qc :=
  (fold_left Qcplus
     (flat_map (fun i => map (fun j => getd t (iy + i) (ix + j)) (range average))
               (range average))
     0 / qnat (average * average))%Qc.

(** A tile whose diagonal and anti-diagonal have different sums. *)
Definition skew_tile : ndarray2 Qc :=
  mk_nd 2 2 [[qz 1; qz 2]; [qz 3; qz 5]].

Definition skew_field : field := repeat skew_tile ntile.


(** The order of the loops on blocks: by tile, then by row origin, then
    by column origin. *)
Definition cell_lt (c d : nat * nat * nat) : Prop :=
  let '(t, y, x) := c in
  let '(t', y', x') := d in
  t < t' \/ (t = t' /\ (y < y' \/ (y = y' /\ x < x'))).

(** The test of line 269 on the value of a block. *)
Definition passes (fld : field) (average : nat) (threshold normavg : Qc)
           (c : nat * nat * nat) : bool :=
  Qle_bool threshold (Qcabs (cell_value fld average normavg c)).

(** The tile [k] of [fld] holds [src], broadcast to [(ny, nx)]. *)
Definition holds_broadcast (ny nx : nat) (fld : field) (k : nat)
           (src : ndarray2 Qc) : Prop :=
  exists b, nth_error fld k = Some b /\
            forall i j, i < ny -> j < nx ->
              getd b i j = getd src (bc_index (nrows src) i)
                                    (bc_index (ncols src) j).

(** ** File names (raster.py, lines 165-171, 191-197 and 207) *)

Module Paths.
Import String Ascii.
Local Open Scope string_scope.

(** [str(n)] for a non-negative integer: its decimal digits. *)
Definition str (n : nat) : string :=
  DecimalString.NilEmpty.string_of_uint (Nat.to_uint n).

Fixpoint zeros (k : nat) : string :=
  match k with
  | 0 => ""
  | S k' => String "0" (zeros k')
  end.

(** [s.zfill(width)] for a string without sign: zeros on the left up to
    [width] characters. *)
Definition zfill (width : nat) (s : string) : string :=
  zeros (width - length s) ++ s.

(** [s.endswith(suffix)]. *)
Fixpoint endswith (s suffix : string) : bool :=
  (s =? suffix) ||
  match s with
  | "" => false
  | String _ s' => endswith s' suffix
  end.

(** [s.replace(old, new)] for a non-empty [old]: the occurrences of
    [old] are replaced from left to right, without overlap; [skip]
    counts the characters of an occurrence still to be dropped. *)
Fixpoint replace_from (skip : nat) (old new s : string) : string :=
  match s with
  | "" => ""
  | String c s' =>
      match skip with
      | S k => replace_from k old new s'
      | 0 =>
          if prefix old s
          then new ++ replace_from (length old - 1) old new s'
          else String c (replace_from 0 old new s')
      end
  end.

Definition replace (s old new : string) : string := replace_from 0 old new s.

(** Line 171 (and 197): the file of tile [itile]. *)
Definition tile_filename (filepath : string) (itile : nat) : string :=
  replace filepath ".nc" (".tile" ++ str (itile + 1) ++ ".nc").

(** Line 207: the grid file of the resolution [nx]. *)
Definition grid_filename (gridfiledir : string) (nx : nat) : string :=
  gridfiledir ++ "/fv3grid_c" ++ zfill 4 (str nx) ++ ".nc4".

(** [int(s)] for a string of decimal digits. *)
Definition parse_nat (s : string) : option nat :=
  option_map Nat.of_uint (DecimalString.NilEmpty.uint_of_string s).

(** The only occurrence of [".nc"] in [stem ++ ".nc"] is the last three
    characters. *)
Definition only_extension (stem : string) : Prop :=
  forall pre post, stem ++ ".nc" = pre ++ ".nc" ++ post -> post = "".

End Paths.

(** ** Field assembly, single-file layout (raster.py, lines 125-162) *)




(** * Properties *)

(** ** The exception monad and loops *)

Lemma bind_Ok_inv {A B : Type} (m : result A) (k : A -> result B) (b : B) :
  bind m k = Ok b -> exists a, m = Ok a /\ k a = Ok b.
Proof.
  destruct m as [a|e]; simpl; intros H; [eauto | discriminate].
Qed.

Lemma foldM_app {S X : Type} (body : S -> X -> result S) (xs ys : list X) (s : S) :
  foldM body (xs ++ ys) s = bind (foldM body xs s) (foldM body ys).
Proof.
  revert s; induction xs as [|x xs IH]; intros s; simpl; [reflexivity|].
  destruct (body s x) as [s'|e]; simpl; [apply IH | reflexivity].
Qed.

(** A loop whose body never raises on the states of an invariant runs to
    its end and keeps the invariant. *)
Lemma foldM_invariant {S X : Type} (I : S -> Prop) (body : S -> X -> result S)
      (xs : list X) (s : S) :
  I s ->
  (forall s x, In x xs -> I s -> exists s', body s x = Ok s' /\ I s') ->
  exists s', foldM body xs s = Ok s' /\ I s'.
Proof.
  revert s; induction xs as [|x xs IH]; intros s Hs Hbody; simpl.
  - eauto.
  - destruct (Hbody s x (or_introl eq_refl) Hs) as (s1 & -> & Hs1); simpl.
    apply IH; [exact Hs1|]. intros; apply Hbody; [right|]; assumption.
Qed.


(** ** Arrays *)

Lemma nth_map_seq {B : Type} (f : nat -> B) (n i : nat) (d : B) :
  i < n -> nth i (map f (seq 0 n)) d = f i.
Proof.
  intros Hi.
  rewrite (nth_indep _ d (f 0)) by (rewrite length_map, length_seq; exact Hi).
  rewrite (map_nth f), seq_nth by exact Hi. reflexivity.
Qed.

Section ArrayFacts.
Context {A : Type} {dA : Dflt A}.

Lemma getd_tabulate2 (R C : nat) (f : nat -> nat -> A) (i j : nat) :
  i < R -> j < C -> getd (tabulate2 R C f) i j = f i j.
Proof.
  intros Hi Hj. unfold getd, tabulate2; simpl.
  rewrite nth_map_seq by exact Hi. apply nth_map_seq, Hj.
Qed.

Lemma wf2_tabulate2 (R C : nat) (f : nat -> nat -> A) :
  wf2 (tabulate2 R C f).
Proof.
  split; simpl.
  - now rewrite length_map, length_seq.
  - apply Forall_forall. intros r Hr. apply in_map_iff in Hr.
    destruct Hr as (i & <- & _). now rewrite length_map, length_seq.
Qed.

Lemma getitem2_Ok (a : ndarray2 A) (i j : nat) :
  i < nrows a -> j < ncols a -> getitem2 a i j = Ok (getd a i j).
Proof.
  intros Hi Hj. unfold getitem2.
  apply Nat.ltb_lt in Hi, Hj. now rewrite Hi, Hj.
Qed.



Lemma bc_index_lt (s i : nat) :
  i < s -> bc_index s i = i.
Proof.
  intros Hi. unfold bc_index.
  destruct (s =? 1) eqn:E; [apply Nat.eqb_eq in E; lia | reflexivity].
Qed.

(** Broadcasting to the array's own shape copies it. *)
Lemma broadcast_to_same (a : ndarray2 A) (R C : nat) :
  nrows a = R -> ncols a = C ->
  exists b, broadcast_to a R C = Ok b /\ nrows b = R /\ ncols b = C /\
            forall i j, i < R -> j < C -> getd b i j = getd a i j.
Proof.
  intros HR HC. unfold broadcast_to, bc_ok, bc_axis, shape; simpl.
  rewrite HR, HC, !Nat.eqb_refl; simpl.
  eexists; split; [reflexivity|]. repeat split.
  intros i j Hi Hj. rewrite getd_tabulate2 by assumption.
  rewrite !bc_index_lt by lia. reflexivity.
Qed.

Lemma in_range_spec (lo hi i : nat) :
  in_range lo hi i = true <-> lo <= i < hi.
Proof.
  unfold in_range. rewrite andb_true_iff, Nat.leb_le, Nat.ltb_lt. tauto.
Qed.

(** An assignment to a slice that lies inside the array, from a source
    of the shape of the slice. *)
Lemma setslice_spec (dst src : ndarray2 A) (r0 r1 c0 c1 : nat) :
  r0 <= r1 <= nrows dst -> c0 <= c1 <= ncols dst ->
  nrows src = r1 - r0 -> ncols src = c1 - c0 ->
  exists d, setslice dst r0 r1 c0 c1 src = Ok d /\
            nrows d = nrows dst /\ ncols d = ncols dst /\ wf2 d /\
            forall i j, i < nrows dst -> j < ncols dst ->
              getd d i j = if in_range r0 r1 i && in_range c0 c1 j
                           then getd src (i - r0) (j - c0)
                           else getd dst i j.
Proof.
  intros Hr Hc Hsr Hsc. unfold setslice, slice_bounds.
  replace (Nat.min r1 (nrows dst)) with r1 by lia.
  replace (Nat.min c1 (ncols dst)) with c1 by lia.
  replace (Nat.min r0 r1) with r0 by lia.
  replace (Nat.min c0 c1) with c0 by lia.
  destruct (broadcast_to_same src Hsr Hsc) as (b & -> & _ & _ & Hb); simpl.
  eexists; split; [reflexivity|]. split; [reflexivity|]. split; [reflexivity|].
  split; [apply wf2_tabulate2|].
  intros i j Hi Hj. rewrite getd_tabulate2 by assumption.
  destruct (in_range r0 r1 i) eqn:Ei; [|reflexivity].
  destruct (in_range c0 c1 j) eqn:Ej; [|reflexivity]. simpl.
  apply in_range_spec in Ei, Ej. apply Hb; lia.
Qed.

(** One and three quarter turns, cell by cell. *)
Lemma rot90_1_spec (a : ndarray2 A) :
  nrows (rot90 a 1) = ncols a /\ ncols (rot90 a 1) = nrows a /\
  forall i j, i < ncols a -> j < nrows a ->
    getd (rot90 a 1) i j = getd a j (ncols a - 1 - i).
Proof.
  repeat split. intros i j Hi Hj.
  change (rot90 a 1) with (transpose (flip1 a)). unfold transpose.
  rewrite getd_tabulate2 by (simpl; assumption).
  unfold flip1. now rewrite getd_tabulate2.
Qed.

Lemma rot90_3_spec (a : ndarray2 A) :
  nrows (rot90 a 3) = ncols a /\ ncols (rot90 a 3) = nrows a /\
  forall i j, i < ncols a -> j < nrows a ->
    getd (rot90 a 3) i j = getd a (nrows a - 1 - j) i.
Proof.
  repeat split. intros i j Hi Hj.
  change (rot90 a 3) with (flip1 (transpose a)). unfold flip1.
  rewrite getd_tabulate2 by (simpl; assumption).
  unfold transpose; simpl. rewrite getd_tabulate2 by lia. reflexivity.
Qed.

End ArrayFacts.

Lemma getd_map_nd {A B : Type} {dA : Dflt A} {dB : Dflt B} (f : A -> B)
      (a : ndarray2 A) (i j : nat) :
  wf2 a -> i < nrows a -> j < ncols a ->
  getd (map_nd f a) i j = f (getd a i j).
Proof.
  intros [Hlen Hrows] Hi Hj. unfold getd, map_nd; simpl.
  rewrite (nth_indep _ [] (map f [])) by (rewrite length_map; lia).
  rewrite (map_nth (map f)).
  assert (Hr : length (nth i (cells a) []) = ncols a).
  { rewrite Forall_forall in Hrows. apply Hrows, nth_In. lia. }
  rewrite (nth_indep _ dflt (f dflt)) by (rewrite length_map; lia).
  apply map_nth.
Qed.

Lemma in_range_reflect (lo hi i : nat) :
  reflect (lo <= i < hi) (in_range lo hi i).
Proof.
  apply iff_reflect. symmetry. apply in_range_spec.
Qed.

(** Case analysis on every range test of the goal, discarding the cases
    that the arithmetic excludes. *)
Ltac range_cases :=
  repeat match goal with
         | |- context [in_range ?lo ?hi ?i] =>
             destruct (in_range_reflect lo hi i); cbn [andb orb negb];
             try (exfalso; lia)
         end.

(** ** Fields *)

Lemma wf3_tiles {A : Type} (ny nx : nat) (a : ndarray3 A) :
  wf3 ny nx a ->
  exists t0 t1 t2 t3 t4 t5,
    a = [t0; t1; t2; t3; t4; t5] /\
    Forall (fun t => wf2 t /\ nrows t = ny /\ ncols t = nx) a.
Proof.
  intros [Hlen Hall]. unfold ntile in Hlen.
  do 6 (destruct a as [|? a]; [discriminate|]).
  destruct a; [|discriminate]. do 6 eexists. split; [reflexivity | exact Hall].
Qed.

Lemma gettile_wf3 {A : Type} (ny nx : nat) (a : ndarray3 A) (itile : nat) :
  wf3 ny nx a -> itile < ntile ->
  exists t, gettile a itile = Ok t /\ nth_error a itile = Some t /\
            wf2 t /\ nrows t = ny /\ ncols t = nx.
Proof.
  intros [Hlen Hall] Hk. unfold gettile.
  destruct (nth_error a itile) as [t|] eqn:E.
  - exists t. split; [reflexivity|]. split; [reflexivity|].
    rewrite Forall_forall in Hall. apply Hall. eapply nth_error_In, E.
  - apply nth_error_None in E. lia.
Qed.

Lemma getitem3_Ok {A : Type} {dA : Dflt A} (ny nx : nat) (a : ndarray3 A)
      (itile i j : nat) :
  wf3 ny nx a -> itile < ntile -> i < ny -> j < nx ->
  exists t, nth_error a itile = Some t /\ getitem3 a itile i j = Ok (getd t i j).
Proof.
  intros Hwf Hk Hi Hj.
  destruct (gettile_wf3 Hwf Hk) as (t & Ht & Hnth & _ & Hr & Hc).
  exists t. split; [exact Hnth|]. unfold getitem3. rewrite Ht; simpl.
  apply getitem2_Ok; lia.
Qed.


(** ** The cross atlas, cell by cell *)

Lemma shape_as_fval (t : ndarray2 Qc) :
  nrows (as_fval t) = nrows t /\ ncols (as_fval t) = ncols t.
Proof. split; reflexivity. Qed.

(** On a field of square tiles [build_cross] returns an array of shape
    [(3*n, 4*n)] whose cells are those of [cross_cell]. *)
Lemma build_cross_spec (n : nat) (fld : field) :
  wf3 n n fld ->
  exists c, build_cross n n fld = Ok c /\
            nrows c = 3 * n /\ ncols c = 4 * n /\ wf2 c /\
            forall i j, i < 3 * n -> j < 4 * n ->
              getd c i j = cross_cell n n fld i j.
Proof.
  intros Hwf. destruct (wf3_tiles Hwf) as (t0 & t1 & t2 & t3 & t4 & t5 & -> & Hall).
  repeat match goal with
         | H : Forall _ (_ :: _) |- _ => inversion H; subst; clear H
         end.
  repeat match goal with
         | H : wf2 _ /\ _ /\ _ |- _ => destruct H as (? & ? & ?)
         end.
  unfold build_cross, gettile; cbn [nth_error bind].
  set (c0 := full (3 * n) (4 * n) Inf).
  assert (Hc0 : nrows c0 = 3 * n /\ ncols c0 = 4 * n) by (split; reflexivity).
  destruct Hc0 as [Hr0 Hk0].
  destruct (@setslice_spec _ _ c0 (as_fval t0) (1*n) (2*n) (1*n) (2*n))
    as (c1 & -> & Hr1 & Hk1 & _ & G1); cbn [nrows ncols as_fval map_nd]; try lia.
  cbn [bind].
  destruct (@setslice_spec _ _ c1 (as_fval t1) (1*n) (2*n) (2*n) (3*n))
    as (c2 & -> & Hr2 & Hk2 & _ & G2); cbn [nrows ncols as_fval map_nd]; try lia.
  cbn [bind].
  destruct (rot90_3_spec (as_fval t2)) as (Ra & Rb & Rc).
  destruct (@setslice_spec _ _ c2 (rot90 (as_fval t2) 3) (2*n) (3*n) (1*n) (2*n))
    as (c3 & -> & Hr3 & Hk3 & _ & G3);
    try (rewrite ?Ra, ?Rb; cbn [nrows ncols as_fval map_nd]; lia).
  cbn [bind].
  destruct (rot90_1_spec (as_fval t3)) as (Rd & Re & Rf).
  destruct (@setslice_spec _ _ c3 (rot90 (as_fval t3) 1) (1*n) (2*n) (3*n) (4*n))
    as (c4 & -> & Hr4 & Hk4 & _ & G4);
    try (rewrite ?Rd, ?Re; cbn [nrows ncols as_fval map_nd]; lia).
  cbn [bind].
  destruct (rot90_1_spec (as_fval t4)) as (Rg & Rh & Ri).
  destruct (@setslice_spec _ _ c4 (rot90 (as_fval t4) 1) (1*n) (2*n) (0*n) (1*n))
    as (c5 & -> & Hr5 & Hk5 & _ & G5);
    try (rewrite ?Rg, ?Rh; cbn [nrows ncols as_fval map_nd]; lia).
  cbn [bind].
  destruct (@setslice_spec _ _ c5 (as_fval t5) (0*n) (1*n) (1*n) (2*n))
    as (c6 & -> & Hr6 & Hk6 & Hwf6 & G6); cbn [nrows ncols as_fval map_nd]; try lia.
  cbn [bind].
  exists c6. split; [reflexivity|]. split; [lia|]. split; [lia|]. split; [exact Hwf6|].
  intros i j Hi Hj.
  rewrite G6, G5, G4, G3, G2, G1 by lia.
  unfold c0, full. rewrite getd_tabulate2 by lia.
  reflexivity.
Qed.

Lemma cross_cell_unfold (n : nat) (t0 t1 t2 t3 t4 t5 : ndarray2 Qc) (i j : nat) :
  cross_cell n n [t0; t1; t2; t3; t4; t5] i j =
  if in_range (0*n) (1*n) i && in_range (1*n) (2*n) j
  then getd (as_fval t5) (i - 0*n) (j - 1*n)
  else if in_range (1*n) (2*n) i && in_range (0*n) (1*n) j
  then getd (rot90 (as_fval t4) 1) (i - 1*n) (j - 0*n)
  else if in_range (1*n) (2*n) i && in_range (3*n) (4*n) j
  then getd (rot90 (as_fval t3) 1) (i - 1*n) (j - 3*n)
  else if in_range (2*n) (3*n) i && in_range (1*n) (2*n) j
  then getd (rot90 (as_fval t2) 3) (i - 2*n) (j - 1*n)
  else if in_range (1*n) (2*n) i && in_range (2*n) (3*n) j
  then getd (as_fval t1) (i - 1*n) (j - 2*n)
  else if in_range (1*n) (2*n) i && in_range (1*n) (2*n) j
  then getd (as_fval t0) (i - 1*n) (j - 1*n)
  else Inf.
Proof. reflexivity. Qed.

(** C5. On an un-averaged field of square tiles ([ny = nx >= 1]) the cross
    path starts from an array of shape [(3*nx, 4*ny)] filled with
    [np.inf] and returns an array of that shape in which cell [(nx, ny)]
    is cell [(0, 0)] of tile 0, cell [(2*nx-1, 3*ny-1)] is cell
    [(nx-1, ny-1)] of tile 1, and every cell outside the six destination
    blocks is [np.inf]. *)
Theorem C5_cross_atlas_layout (ny nx : nat) (fld : field) :
  wf3 ny nx fld -> ny = nx -> 1 <= nx ->
  (forall i j, i < 3 * nx -> j < 4 * ny ->
     getitem2 (full (3 * nx) (4 * ny) Inf) i j = Ok Inf) /\
  exists c,
    build_cross nx ny fld = Ok c /\
    shape c = (3 * nx, 4 * ny) /\ wf2 c /\
    getitem2 c nx ny = as_cell (getitem3 fld 0 0 0) /\
    getitem2 c (2 * nx - 1) (3 * ny - 1)
      = as_cell (getitem3 fld 1 (nx - 1) (ny - 1)) /\
    forall i j, i < 3 * nx -> j < 4 * ny ->
      forallb (fun b => negb (in_block b i j)) (cross_blocks nx ny) = true ->
      getitem2 c i j = Ok Inf.
Proof.
  intros Hwf -> Hn. split.
  { intros i j Hi Hj. rewrite getitem2_Ok by assumption.
    unfold full. now rewrite getd_tabulate2. }
  destruct (build_cross_spec Hwf) as (c & Hc & Hr & Hk & Hwfc & Hcell).
  exists c. split; [exact Hc|]. split; [unfold shape; congruence|].
  split; [exact Hwfc|].
  destruct (wf3_tiles Hwf) as (t0 & t1 & t2 & t3 & t4 & t5 & -> & Hall).
  repeat match goal with
         | H : Forall _ (_ :: _) |- _ => inversion H; subst; clear H
         end.
  repeat match goal with
         | H : wf2 _ /\ _ /\ _ |- _ => destruct H as (? & ? & ?)
         end.
  split; [|split].
  - rewrite getitem2_Ok, Hcell, cross_cell_unfold by lia.
    unfold getitem3, gettile; cbn [nth_error bind].
    rewrite getitem2_Ok by lia. cbn [as_cell bind].
    range_cases. f_equal.
    replace (nx - 1 * nx) with 0 by lia.
    apply getd_map_nd; [assumption | lia | lia].
  - rewrite getitem2_Ok, Hcell, cross_cell_unfold by lia.
    unfold getitem3, gettile; cbn [nth_error bind].
    rewrite getitem2_Ok by lia. cbn [as_cell bind].
    range_cases. f_equal.
    replace (2 * nx - 1 - 1 * nx) with (nx - 1) by lia.
    replace (3 * nx - 1 - 2 * nx) with (nx - 1) by lia.
    apply getd_map_nd; [assumption | lia | lia].
  - intros i j Hi Hj Hout.
    rewrite getitem2_Ok, Hcell, cross_cell_unfold by lia.
    unfold cross_blocks, in_block in Hout. cbn [forallb] in Hout.
    rewrite !andb_true_iff, !negb_true_iff in Hout.
    destruct Hout as (B0 & B1 & B2 & B3 & B4 & B5 & _).
    now rewrite B5, B4, B3, B2, B1, B0.
Qed.

Lemma wf3_demo_field : wf3 2 2 demo_field.
Proof.
  split; [reflexivity|].
  repeat constructor.
Qed.

Lemma C5_cross_atlas_layout_witness :
  exists c,
    build_cross 2 2 demo_field = Ok c /\
    shape c = (6, 8) /\
    getitem2 c 2 2 = as_cell (getitem3 demo_field 0 0 0) /\
    getitem2 c 3 5 = as_cell (getitem3 demo_field 1 1 1).
Proof.
  destruct (@C5_cross_atlas_layout 2 2 demo_field wf3_demo_field eq_refl)
    as (_ & c & Hc & Hs & _ & H0 & H1 & _); [lia|].
  exists c. repeat split; assumption.
Defined.

(** C2, the example as the specification gives it: three quarter turns of
    [[1,2],[3,4]] do not give [[2,4],[1,3]]. *)
Lemma C2_rot270_example_refuted :
  rot90 (mk_nd 2 2 [[1; 2]; [3; 4]]) 3 <> mk_nd 2 2 [[2; 4]; [1; 3]].
Proof.
  vm_compute. discriminate.
Qed.

(** C2, amended.  On a field of square tiles the cross path puts at cell
    [(2*nx, ny)] of the atlas the cell [(ny-1, 0)] of tile 2; and
    [np.rot90(., 3)] maps [[1,2],[3,4]] to [[3,1],[4,2]], while
    [[2,4],[1,3]] is what one quarter turn gives. *)
Theorem C2_tile2_rotation (ny nx : nat) (fld : field) :
  wf3 ny nx fld -> ny = nx -> 1 <= nx ->
  (exists c,
     build_cross nx ny fld = Ok c /\
     getitem2 c (2 * nx) ny = as_cell (getitem3 fld 2 (ny - 1) 0)) /\
  rot90 (mk_nd 2 2 [[1; 2]; [3; 4]]) 3 = mk_nd 2 2 [[3; 1]; [4; 2]] /\
  rot90 (mk_nd 2 2 [[1; 2]; [3; 4]]) 1 = mk_nd 2 2 [[2; 4]; [1; 3]].
Proof.
  intros Hwf -> Hn. split; [|split; reflexivity].
  destruct (build_cross_spec Hwf) as (c & Hc & Hr & Hk & _ & Hcell).
  exists c. split; [exact Hc|].
  destruct (wf3_tiles Hwf) as (t0 & t1 & t2 & t3 & t4 & t5 & -> & Hall).
  repeat match goal with
         | H : Forall _ (_ :: _) |- _ => inversion H; subst; clear H
         end.
  repeat match goal with
         | H : wf2 _ /\ _ /\ _ |- _ => destruct H as (? & ? & ?)
         end.
  rewrite getitem2_Ok, Hcell, cross_cell_unfold by lia.
  unfold getitem3, gettile; cbn [nth_error bind].
  rewrite getitem2_Ok by lia. cbn [as_cell bind].
  range_cases. f_equal.
  destruct (rot90_3_spec (as_fval t2)) as (_ & _ & Hrot).
  rewrite Hrot by (cbn [as_fval map_nd ncols nrows]; lia).
  cbn [as_fval map_nd nrows].
  replace (nrows t2 - 1 - (nx - 1 * nx)) with (nx - 1) by lia.
  replace (2 * nx - 2 * nx) with 0 by lia.
  apply getd_map_nd; [assumption | lia | lia].
Qed.

Lemma C2_tile2_rotation_witness :
  exists c,
    build_cross 2 2 demo_field = Ok c /\
    getitem2 c 4 2 = as_cell (getitem3 demo_field 2 1 0).
Proof.
  destruct (@C2_tile2_rotation 2 2 demo_field wf3_demo_field eq_refl)
    as (H & _); [lia | exact H].
Defined.

(** ** The six destination blocks *)

Lemma cross_blocks_nth (nx ny k : nat) (b : nat * nat * (nat * nat)) :
  nth_error (cross_blocks nx ny) k = Some b ->
  (k = 0 /\ b = (1*nx, 2*nx, (1*ny, 2*ny))) \/
  (k = 1 /\ b = (1*nx, 2*nx, (2*ny, 3*ny))) \/
  (k = 2 /\ b = (2*nx, 3*nx, (1*ny, 2*ny))) \/
  (k = 3 /\ b = (1*nx, 2*nx, (3*ny, 4*ny))) \/
  (k = 4 /\ b = (1*nx, 2*nx, (0*ny, 1*ny))) \/
  (k = 5 /\ b = (0*nx, 1*nx, (1*ny, 2*ny))).
Proof.
  unfold cross_blocks.
  do 6 (destruct k as [|k]; [cbn [nth_error]; intros [= <-]; tauto|]).
  cbn [nth_error]. destruct k; discriminate.
Qed.

Lemma in_block_spec (r0 r1 c0 c1 i j : nat) :
  in_block (r0, r1, (c0, c1)) i j = true <-> (r0 <= i < r1 /\ c0 <= j < c1).
Proof.
  unfold in_block. now rewrite andb_true_iff, !in_range_spec.
Qed.

(** C10. The six destination blocks of the cross atlas lie inside the
    [(3*nx, 4*ny)] array and are pairwise disjoint, so a cell is written
    by at most one assignment; and on a field of square tiles the atlas
    that [build_cross] returns still shows, in each block, the source
    that was copied into it. *)
Theorem C10_cross_blocks_disjoint (n : nat) (fld : field) :
  wf3 n n fld ->
  (forall nx ny k1 k2 b1 b2 i j,
     nth_error (cross_blocks nx ny) k1 = Some b1 ->
     nth_error (cross_blocks nx ny) k2 = Some b2 ->
     k1 <> k2 ->
     in_block b1 i j = true -> in_block b2 i j = false) /\
  (forall nx ny b i j,
     In b (cross_blocks nx ny) -> in_block b i j = true ->
     i < 3 * nx /\ j < 4 * ny) /\
  exists c,
    build_cross n n fld = Ok c /\
    forall k r0 r1 c0 c1 src i j,
      nth_error (cross_blocks n n) k = Some (r0, r1, (c0, c1)) ->
      nth_error (cross_sources fld) k = Some src ->
      in_block (r0, r1, (c0, c1)) i j = true ->
      getitem2 c i j = Ok (getd src (i - r0) (j - c0)).
Proof.
  intros Hwf. split; [|split].
  - intros nx ny k1 k2 b1 b2 i j H1 H2 Hne Hin.
    apply cross_blocks_nth in H1, H2.
    destruct b2 as [[r0 r1] [c0 c1]].
    destruct (in_block (r0, r1, (c0, c1)) i j) eqn:E; [exfalso|reflexivity].
    apply in_block_spec in E.
    destruct H1 as [[-> ->]|[[-> ->]|[[-> ->]|[[-> ->]|[[-> ->]|[-> ->]]]]]];
      apply in_block_spec in Hin;
      destruct H2 as [[-> H2]|[[-> H2]|[[-> H2]|[[-> H2]|[[-> H2]|[-> H2]]]]]];
      try congruence; injection H2 as -> -> -> ->; lia.
  - intros nx ny b i j Hb Hin.
    apply In_nth_error in Hb. destruct Hb as (k & Hk).
    apply cross_blocks_nth in Hk.
    destruct Hk as [[_ ->]|[[_ ->]|[[_ ->]|[[_ ->]|[[_ ->]|[_ ->]]]]]];
      apply in_block_spec in Hin; lia.
  - destruct (build_cross_spec Hwf) as (c & Hc & Hr & Hk & _ & Hcell).
    exists c. split; [exact Hc|].
    destruct (wf3_tiles Hwf) as (t0 & t1 & t2 & t3 & t4 & t5 & -> & _).
    intros k r0 r1 c0 c1 src i j Hb Hsrc Hin.
    apply cross_blocks_nth in Hb. apply in_block_spec in Hin.
    rewrite getitem2_Ok by
      (destruct Hb as [[_ Hb]|[[_ Hb]|[[_ Hb]|[[_ Hb]|[[_ Hb]|[_ Hb]]]]]];
       injection Hb as -> -> -> ->; lia).
    f_equal. rewrite Hcell, cross_cell_unfold by
      (destruct Hb as [[_ Hb]|[[_ Hb]|[[_ Hb]|[[_ Hb]|[[_ Hb]|[_ Hb]]]]]];
       injection Hb as -> -> -> ->; lia).
    destruct Hb as [[-> Hb]|[[-> Hb]|[[-> Hb]|[[-> Hb]|[[-> Hb]|[-> Hb]]]]]];
      injection Hb as -> -> -> ->;
      cbn [cross_sources cross_turns combine map nth_error] in Hsrc;
      injection Hsrc as <-;
      range_cases; reflexivity.
Qed.

Lemma C10_cross_blocks_disjoint_witness :
  exists c,
    build_cross 2 2 demo_field = Ok c /\
    getitem2 c 4 3 = Ok (getd (rot90 (as_fval demo_tile) 3) 0 1).
Proof.
  destruct (@C10_cross_blocks_disjoint 2 demo_field wf3_demo_field)
    as (_ & _ & c & Hc & H).
  exists c. split; [exact Hc|].
  apply (H 2 4 6 2 4 (rot90 (as_fval demo_tile) 3) 4 3);
    reflexivity.
Defined.

(** ** The value range *)

Lemma fmax_spec (x y : Qc) :
  (fmax x y = x \/ fmax x y = y) /\ (x <= fmax x y)%Qc /\ (y <= fmax x y)%Qc.
Proof.
  unfold fmax. destruct (Qle_bool x y) eqn:E.
  - apply Qle_bool_iff in E. repeat split; auto using Qcle_refl.
  - assert (H : ~ (x <= y)%Qc) by (intros H; apply Qle_bool_iff in H; congruence).
    apply Qcnot_le_lt, Qclt_le_weak in H. repeat split; auto using Qcle_refl.
Qed.

Lemma fmin_spec (x y : Qc) :
  (fmin x y = x \/ fmin x y = y) /\ (fmin x y <= x)%Qc /\ (fmin x y <= y)%Qc.
Proof.
  unfold fmin. destruct (Qle_bool x y) eqn:E.
  - apply Qle_bool_iff in E. repeat split; auto using Qcle_refl.
  - assert (H : ~ (x <= y)%Qc) by (intros H; apply Qle_bool_iff in H; congruence).
    apply Qcnot_le_lt, Qclt_le_weak in H. repeat split; auto using Qcle_refl.
Qed.

Lemma fold_fmax_spec (xs : list Qc) (x : Qc) :
  In (fold_left fmax xs x) (x :: xs) /\
  forall y, In y (x :: xs) -> (y <= fold_left fmax xs x)%Qc.
Proof.
  revert x; induction xs as [|z xs IH]; intros x; simpl.
  - split; [auto|]. intros y [<-|[]]. apply Qcle_refl.
  - destruct (IH (fmax x z)) as [Hin Hle].
    destruct (fmax_spec x z) as (Hc & Hx & Hz). split.
    + destruct Hin as [Hin|Hin]; [|auto].
      rewrite <- Hin. destruct Hc as [->| ->]; auto.
    + intros y [<-|[<-|Hy]].
      * eapply Qcle_trans; [exact Hx|]. apply Hle; left; reflexivity.
      * eapply Qcle_trans; [exact Hz|]. apply Hle; left; reflexivity.
      * apply Hle; right; exact Hy.
Qed.

Lemma fold_fmin_spec (xs : list Qc) (x : Qc) :
  In (fold_left fmin xs x) (x :: xs) /\
  forall y, In y (x :: xs) -> (fold_left fmin xs x <= y)%Qc.
Proof.
  revert x; induction xs as [|z xs IH]; intros x; simpl.
  - split; [auto|]. intros y [<-|[]]. apply Qcle_refl.
  - destruct (IH (fmin x z)) as [Hin Hle].
    destruct (fmin_spec x z) as (Hc & Hx & Hz). split.
    + destruct Hin as [Hin|Hin]; [|auto].
      rewrite <- Hin. destruct Hc as [->| ->]; auto.
    + intros y [<-|[<-|Hy]].
      * eapply Qcle_trans; [|exact Hx]. apply Hle; left; reflexivity.
      * eapply Qcle_trans; [|exact Hz]. apply Hle; left; reflexivity.
      * apply Hle; right; exact Hy.
Qed.

Lemma amax_spec (l : list Qc) :
  l <> [] ->
  exists m, amax l = Ok m /\ In m l /\ forall y, In y l -> (y <= m)%Qc.
Proof.
  destruct l as [|x xs]; [congruence|]. intros _.
  exists (fold_left fmax xs x). split; [reflexivity|]. apply fold_fmax_spec.
Qed.

Lemma amin_spec (l : list Qc) :
  l <> [] ->
  exists m, amin l = Ok m /\ In m l /\ forall y, In y l -> (m <= y)%Qc.
Proof.
  destruct l as [|x xs]; [congruence|]. intros _.
  exists (fold_left fmin xs x). split; [reflexivity|]. apply fold_fmin_spec.
Qed.



(** The example of the specification, evaluated: (-5, 5) and (-3, 5). *)
Lemma compute_range_example :
  compute_range true range_field = Ok (qz (-5), qz 5) /\
  compute_range false range_field = Ok (qz (-3), qz 5).
Proof.
  split; vm_compute; f_equal; f_equal; apply Qc_is_canon; reflexivity.
Qed.

(** ** The cross path and the polygon parameters *)




(** ** The polygon loop *)


(** A loop whose body only appends to the state. *)
Lemma foldM_emit {P X : Type} (body : list P -> X -> result (list P))
      (g : X -> list P) (xs : list X) :
  (forall s x, In x xs -> body s x = Ok (s ++ g x)) ->
  forall s, foldM body xs s = Ok (s ++ flat_map g xs).
Proof.
  induction xs as [|x xs IH]; intros Hb s; simpl.
  - now rewrite app_nil_r.
  - rewrite Hb by (left; reflexivity). simpl.
    rewrite IH by (intros; apply Hb; right; assumption).
    now rewrite app_assoc.
Qed.

Lemma inner_loop_Ok (ny nx : nat) (fld : field) (t : ndarray2 Qc)
      (itile iy ix : nat) (ks : list nat) (v : Qc) :
  nth_error fld itile = Some t -> nrows t = ny -> ncols t = nx ->
  (forall k, In k ks -> iy + k < ny /\ ix + k < nx) ->
  foldM (fun value ixa =>
           x <- getitem3 fld itile (iy + ixa) (ix + ixa) ;;
           Ok (value + x)%Qc) ks v
  = Ok (fold_left (fun s k => (s + getd t (iy + k) (ix + k))%Qc) ks v).
Proof.
  intros Ht Hr Hc. revert v.
  induction ks as [|k ks IH]; intros v Hks; simpl; [reflexivity|].
  destruct (Hks k (or_introl eq_refl)) as [Hi Hj].
  unfold getitem3 at 1, gettile. rewrite Ht. cbn [bind].
  rewrite getitem2_Ok by lia. cbn [bind].
  apply IH. intros; apply Hks; right; assumption.
Qed.

Lemma block_value_Ok (ny nx : nat) (fld : field) (t : ndarray2 Qc)
      (average : nat) (normavg : Qc) (itile iy ix : nat) :
  nth_error fld itile = Some t -> nrows t = ny -> ncols t = nx ->
  iy + average <= ny -> ix + average <= nx ->
  block_value fld average normavg itile iy ix
  = Ok (block_sum t average iy ix * normavg)%Qc.
Proof.
  intros Ht Hr Hc Hy Hx. unfold block_value, block_sum.
  assert (H : forall (js : list nat) v,
             foldM (fun value iya =>
                      foldM (fun value ixa =>
                               x <- getitem3 fld itile (iy + ixa) (ix + ixa) ;;
                               Ok (value + x)%Qc)
                            (range average) value) js v
             = Ok (fold_left (fun v _ => diag_add t average iy ix v) js v)).
  { induction js as [|j js IH]; intros v; simpl; [reflexivity|].
    rewrite (@inner_loop_Ok ny nx fld t itile iy ix (range average) v Ht Hr Hc).
    - cbn [bind]. apply IH.
    - intros k Hk. apply in_seq in Hk. lia. }
  rewrite H. reflexivity.
Qed.




Lemma tile_of_nth_error (a : ndarray3 Qc) (itile : nat) (t : ndarray2 Qc) :
  nth_error a itile = Some t -> tile_of a itile = t.
Proof.
  intros H. unfold tile_of. now apply nth_error_nth.
Qed.

Lemma vertex_Ok (ny nx : nat) (vlons vlats : ndarray3 Qc) (itile i j : nat) :
  wf3 ny nx vlons -> wf3 ny nx vlats -> itile < ntile -> i < ny -> j < nx ->
  vertex vlons vlats itile i j = Ok (corner vlons vlats itile i j).
Proof.
  intros Hlon Hlat Ht Hi Hj. unfold vertex, corner.
  destruct (getitem3_Ok Hlon Ht Hi Hj) as (t1 & Hn1 & ->).
  destruct (getitem3_Ok Hlat Ht Hi Hj) as (t2 & Hn2 & ->).
  cbn [bind].
  now rewrite (@tile_of_nth_error vlons itile t1 Hn1),
              (@tile_of_nth_error vlats itile t2 Hn2).
Qed.

Lemma draw_block_Ok (ny nx : nat) (fld vlons vlats : ndarray3 Qc)
      (average : nat) (threshold normavg : Qc) (itile iy ix : nat)
      (patches : list patch) :
  wf3 ny nx fld -> wf3 (ny + 1) (nx + 1) vlons -> wf3 (ny + 1) (nx + 1) vlats ->
  itile < ntile -> iy + average <= ny -> ix + average <= nx ->
  block_value fld average normavg itile iy ix
    = Ok (cell_value fld average normavg (itile, iy, ix)) /\
  draw_block fld vlons vlats average threshold normavg itile iy ix patches
    = Ok (patches ++ emit fld vlons vlats average threshold normavg (itile, iy, ix)).
Proof.
  intros Hf Hlon Hlat Ht Hy Hx.
  destruct (gettile_wf3 Hf Ht) as (t & _ & Hnth & _ & Hr & Hc).
  assert (Hv : block_value fld average normavg itile iy ix
               = Ok (cell_value fld average normavg (itile, iy, ix))).
  { rewrite (@block_value_Ok ny nx fld t average normavg itile iy ix
                              Hnth Hr Hc Hy Hx).
    unfold cell_value. now rewrite (@tile_of_nth_error fld itile t Hnth). }
  split; [exact Hv|].
  unfold draw_block, emit. rewrite Hv. cbn [bind].
  destruct (Qle_bool threshold (Qcabs (cell_value fld average normavg (itile, iy, ix))));
    [|now rewrite app_nil_r].
  rewrite !Nat.add_0_r.
  rewrite !(vertex_Ok Hlon Hlat Ht) by lia. reflexivity.
Qed.

(** The origins of the blocks along an axis. *)
Lemma origins_div (a m : nat) :
  1 <= a -> origins (m * a) a = map (fun k => k * a) (seq 0 m).
Proof.
  intros Ha. unfold origins. f_equal. f_equal.
  symmetry. apply (Nat.div_unique _ _ _ (a - 1)); lia.
Qed.

Lemma in_origins (n a iy : nat) :
  1 <= a ->
  (In iy (origins n a) <-> exists k, iy = k * a /\ k * a < n).
Proof.
  intros Ha. unfold origins. rewrite in_map_iff.
  assert (Hq : forall k, k < (n + a - 1) / a <-> k * a < n).
  { intros k. split; intros H.
    - assert (H1 : a * ((n + a - 1) / a) <= n + a - 1)
        by (apply Nat.Div0.mul_div_le).
      nia.
    - assert (H2 : n + a - 1 < a * S ((n + a - 1) / a))
        by (apply Nat.mul_succ_div_gt; lia).
      destruct (Nat.lt_ge_cases k ((n + a - 1) / a)) as [Hlt|Hge];
        [exact Hlt | exfalso; nia]. }
  split.
  - intros (k & <- & Hk). apply in_seq in Hk. exists k. split; [reflexivity|].
    apply Hq; lia.
  - intros (k & -> & Hk). exists k. split; [reflexivity|].
    apply in_seq. apply Hq in Hk. lia.
Qed.


Lemma range_step_Ok (n a : nat) : 1 <= a -> range_step n a = Ok (origins n a).
Proof.
  intros Ha. unfold range_step.
  destruct (a =? 0) eqn:E; [apply Nat.eqb_eq in E; lia | reflexivity].
Qed.

Lemma flat_map_list_prod {X Y P : Type} (g : X * Y -> list P)
      (l : list X) (l' : list Y) :
  flat_map g (list_prod l l')
  = flat_map (fun x => flat_map (fun y => g (x, y)) l') l.
Proof.
  induction l as [|x l IH]; simpl; [reflexivity|].
  rewrite flat_map_app, IH. f_equal. clear IH.
  induction l' as [|y l' IH']; simpl; [reflexivity|]. now rewrite IH'.
Qed.



Lemma in_blocks (ny nx a itile iy ix : nat) :
  In (itile, iy, ix) (blocks ny nx a) <->
  itile < ntile /\ In iy (origins ny a) /\ In ix (origins nx a).
Proof.
  unfold blocks. rewrite !in_prod_iff. unfold range. rewrite in_seq.
  intuition lia.
Qed.

(** ** The patches of a run without exception *)

Lemma build_polygons_spec (ny nx : nat) (fld vlons vlats : ndarray3 Qc)
      (a : nat) (threshold normavg : Qc) :
  1 <= a -> ny mod a = 0 -> nx mod a = 0 ->
  wf3 ny nx fld -> wf3 (ny + 1) (nx + 1) vlons -> wf3 (ny + 1) (nx + 1) vlats ->
  build_polygons ny nx fld vlons vlats a threshold normavg
  = Ok (flat_map (emit fld vlons vlats a threshold normavg) (blocks ny nx a)).
Proof.
  intros Ha Hy Hx Hf Hlon Hlat.
  unfold build_polygons, blocks. rewrite !flat_map_list_prod.
  rewrite (@foldM_emit _ _ _
             (fun itile =>
                flat_map (fun iy =>
                  flat_map (fun ix =>
                    emit fld vlons vlats a threshold normavg (itile, iy, ix))
                    (origins nx a)) (origins ny a))); [reflexivity|].
  intros s itile Hit. apply in_seq in Hit.
  rewrite (range_step_Ok ny Ha). cbn [bind].
  apply foldM_emit. intros s1 iy Hiy.
  rewrite (range_step_Ok nx Ha). cbn [bind].
  apply foldM_emit. intros s2 ix Hix.
  apply (in_origins ny iy Ha) in Hiy. destruct Hiy as (ky & -> & Hky).
  apply (in_origins nx ix Ha) in Hix. destruct Hix as (kx & -> & Hkx).
  apply Nat.Div0.mod_divides in Hy, Hx.
  destruct Hy as (my & Hy), Hx as (mx & Hx).
  assert (Hky' : ky < my) by nia.
  assert (Hkx' : kx < mx) by nia.
  apply (@draw_block_Ok ny nx); try assumption; [lia | nia | nia].
Qed.



Section Emitted.
Variables (fld vlons vlats : ndarray3 Qc) (a : nat) (threshold normavg : Qc).







End Emitted.


Lemma wf3_demo_grid : wf3 (2 + 1) (2 + 1) demo_grid.
Proof.
  split; [reflexivity|].
  repeat constructor.
Qed.


(** ** Averaging over blocks of one cell *)

Lemma normavg_one : (1 / qnat (1 ^ 2))%Qc = 1%Qc.
Proof.
  apply Qc_is_canon. reflexivity.
Qed.

Lemma block_sum_one (t : ndarray2 Qc) (iy ix : nat) :
  (block_sum t 1 iy ix * (1 / qnat (1 ^ 2)))%Qc = getd t iy ix.
Proof.
  rewrite normavg_one. unfold block_sum, diag_add. cbn [range seq fold_left].
  rewrite !Nat.add_0_r. ring.
Qed.

(** C8. With [average = 1] the value computed for the block at
    [(iy, ix)] is the field value [fld[itile, iy, ix]] itself, the loops
    visit every cell, and every patch of the output carries the field
    value of its cell. *)
Theorem C8_average_one_identity (ny nx : nat) (fld vlons vlats : ndarray3 Qc)
        (threshold : Qc) :
  wf3 ny nx fld -> wf3 (ny + 1) (nx + 1) vlons -> wf3 (ny + 1) (nx + 1) vlats ->
  exists normavg,
    compute_normavg 1 = Ok normavg /\
    range_step ny 1 = Ok (range ny) /\ range_step nx 1 = Ok (range nx) /\
    (forall itile iy ix, itile < ntile -> iy < ny -> ix < nx ->
       block_value fld 1 normavg itile iy ix = getitem3 fld itile iy ix) /\
    exists patches,
      build_polygons ny nx fld vlons vlats 1 threshold normavg = Ok patches /\
      forall p, In p patches ->
        getitem3 fld (fst (fst (p_cell p))) (snd (fst (p_cell p))) (snd (p_cell p))
        = Ok (p_value p).
Proof.
  intros Hf Hlon Hlat.
  exists (1 / qnat (1 ^ 2))%Qc. split; [reflexivity|].
  assert (Hor : forall n, origins n 1 = range n).
  { intros n. rewrite <- (Nat.mul_1_r n) at 1.
    rewrite origins_div by lia. unfold range.
    rewrite <- (map_id (seq 0 n)) at 2. apply map_ext. intros k. lia. }
  split; [unfold range_step; cbn [Nat.eqb]; now rewrite Hor|].
  split; [unfold range_step; cbn [Nat.eqb]; now rewrite Hor|].
  assert (Hcell : forall itile iy ix, itile < ntile -> iy < ny -> ix < nx ->
            block_value fld 1 (1 / qnat (1 ^ 2))%Qc itile iy ix
              = getitem3 fld itile iy ix /\
            getitem3 fld itile iy ix
              = Ok (cell_value fld 1 (1 / qnat (1 ^ 2))%Qc (itile, iy, ix))).
  { intros itile iy ix Ht Hy Hx.
    destruct (getitem3_Ok Hf Ht Hy Hx) as (t & Hnth & Hget).
    destruct (gettile_wf3 Hf Ht) as (t' & _ & Hnth' & _ & Hr & Hc).
    assert (t' = t) by congruence. subst t'.
    rewrite Hget.
    rewrite (@block_value_Ok ny nx fld t 1 _ itile iy ix Hnth Hr Hc)
      by lia.
    unfold cell_value. rewrite (@tile_of_nth_error fld itile t Hnth).
    now rewrite block_sum_one. }
  split; [intros; now apply Hcell|].
  eexists. split.
  { apply build_polygons_spec; try assumption;
      [lia | apply Nat.mod_1_r | apply Nat.mod_1_r]. }
  intros p Hp. apply in_flat_map in Hp. destruct Hp as ([[itile iy] ix] & Hd & Hp).
  apply in_blocks in Hd. destruct Hd as (Ht & Hy & Hx).
  rewrite Hor in Hy, Hx. apply in_seq in Hy, Hx.
  unfold emit in Hp.
  destruct (Qle_bool threshold _); [|destruct Hp].
  destruct Hp as [<-|[]]. cbn [p_cell p_value fst snd].
  apply Hcell; lia.
Qed.

Lemma C8_average_one_identity_witness :
  exists normavg,
    compute_normavg 1 = Ok normavg /\
    block_value demo_field 1 normavg 3 1 0 = getitem3 demo_field 3 1 0.
Proof.
  destruct (@C8_average_one_identity 2 2 demo_field demo_grid demo_grid (qz 0)
              wf3_demo_field wf3_demo_grid wf3_demo_grid)
    as (normavg & Hn & _ & _ & Hcell & _).
  exists normavg. split; [exact Hn|].
  apply Hcell; unfold ntile; lia.
Defined.

(** ** An averaging size that does not divide the edge length *)








(** ** Field assembly *)

Lemma foldM_raises_inv {S X : Type} (I : S -> Prop) (body : S -> X -> result S)
      (e : exn) (xs : list X) (x : X) (s : S) :
  I s -> In x xs ->
  (forall s y, In y xs -> I s ->
     (exists s', body s y = Ok s' /\ I s') \/ body s y = Raise e) ->
  (forall s, I s -> body s x = Raise e) ->
  foldM body xs s = Raise e.
Proof.
  intros Hs Hin Hstep Hx. revert s Hs.
  induction xs as [|y ys IH]; intros s Hs; [destruct Hin|]. simpl.
  destruct (Hstep s y (or_introl eq_refl) Hs) as [(s' & E & Hs')| E];
    rewrite E; cbn [bind]; [|reflexivity].
  destruct Hin as [->|Hin]; [rewrite (Hx s Hs) in E; discriminate|].
  apply IH; [exact Hin | | exact Hs'].
  intros s0 y0 Hy0. apply Hstep. right. exact Hy0.
Qed.

Lemma length_list_set {X : Type} (l : list X) (i : nat) (x : X) :
  length (list_set l i x) = length l.
Proof.
  revert i; induction l as [|h t IH]; intros [|i]; simpl; auto.
Qed.

Lemma Forall_list_set {X : Type} (P : X -> Prop) (l : list X) (i : nat) (x : X) :
  Forall P l -> P x -> Forall P (list_set l i x).
Proof.
  intros Hl Hx. revert i. induction Hl as [|h t Hh Ht IH]; intros [|i]; simpl;
    constructor; auto.
Qed.

Lemma broadcast_to_cases {A : Type} {dA : Dflt A} (a : ndarray2 A) (R C : nat) :
  (bc_ok (shape a) (R, C) = true /\
   exists b, broadcast_to a R C = Ok b /\ wf2 b /\ nrows b = R /\ ncols b = C) \/
  (bc_ok (shape a) (R, C) = false /\ broadcast_to a R C = Raise ValueError).
Proof.
  unfold broadcast_to. destruct (bc_ok (shape a) (R, C)); [left | right; auto].
  split; [reflexivity|]. eexists. split; [reflexivity|].
  split; [apply wf2_tabulate2 | split; reflexivity].
Qed.

Lemma settile_spec (ny nx : nat) (fld : field) (itile : nat) (src : ndarray2 Qc) :
  wf3 ny nx fld -> itile < ntile ->
  (bc_ok (shape src) (ny, nx) = true /\
   exists fld', settile fld itile src = Ok fld' /\ wf3 ny nx fld') \/
  (bc_ok (shape src) (ny, nx) = false /\ settile fld itile src = Raise ValueError).
Proof.
  intros Hf Ht. unfold settile.
  destruct (gettile_wf3 Hf Ht) as (t & -> & _ & _ & <- & <-). cbn [bind].
  destruct (broadcast_to_cases src (nrows t) (ncols t))
    as [(Hok & b & -> & Hwb & Hr & Hc)|(Hno & ->)]; [left | right; auto].
  split; [exact Hok|]. cbn [bind]. eexists. split; [reflexivity|].
  destruct Hf as [Hlen Hall]. split.
  - now rewrite length_list_set.
  - apply Forall_list_set; [exact Hall | auto].
Qed.

Lemma wf3_zeros (ny nx : nat) : wf3 ny nx (repeat (full ny nx 0%Qc) ntile).
Proof.
  split; [apply repeat_length|].
  apply Forall_forall. intros t Ht. apply repeat_spec in Ht. subst t.
  split; [apply wf2_tabulate2 | split; reflexivity].
Qed.

Lemma bc_ok_refl (s : nat * nat) : bc_ok s s = true.
Proof.
  unfold bc_ok, bc_axis. now rewrite !Nat.eqb_refl.
Qed.

(** The first loop of the per-tile layout. *)
Lemma read_tile_next (slices : nat -> ndarray2 Qc) (ny nx : nat) (fld : field)
      (itile : nat) :
  wf3 ny nx fld -> 1 <= itile < ntile ->
  (bc_ok (shape (slices itile)) (ny, nx) = true /\
   exists fld', read_tile slices (Some (mk_assembled ny nx fld)) itile
                = Ok (Some (mk_assembled ny nx fld')) /\ wf3 ny nx fld') \/
  (bc_ok (shape (slices itile)) (ny, nx) = false /\
   read_tile slices (Some (mk_assembled ny nx fld)) itile = Raise ValueError).
Proof.
  intros Hf [H1 H6]. unfold read_tile.
  assert (E : (itile =? 0) = false) by (apply Nat.eqb_neq; lia).
  rewrite E. cbn [a_fld a_ny a_nx].
  destruct (settile_spec (slices itile) Hf H6) as [(Hok & fld' & -> & Hf')|(Hno & ->)].
  - left. split; [exact Hok|]. cbn [bind]. exists fld'. auto.
  - right. auto.
Qed.

Lemma read_tile_first (slices : nat -> ndarray2 Qc) :
  exists fld0,
    read_tile slices None 0
    = Ok (Some (mk_assembled (nrows (slices 0)) (ncols (slices 0)) fld0)) /\
    wf3 (nrows (slices 0)) (ncols (slices 0)) fld0.
Proof.
  unfold read_tile. cbn [Nat.eqb a_fld a_ny a_nx].
  destruct (@settile_spec (nrows (slices 0)) (ncols (slices 0))
              (repeat (full (nrows (slices 0)) (ncols (slices 0)) 0%Qc) ntile)
              0 (slices 0) (wf3_zeros _ _))
    as [(_ & fld0 & -> & Hf0)|(Hno & _)]; [unfold ntile; lia | |].
  - exists fld0. auto.
  - change (nrows (slices 0), ncols (slices 0)) with (shape (slices 0)) in Hno.
    rewrite bc_ok_refl in Hno. discriminate.
Qed.

Lemma read_tiles_spec (slices : nat -> ndarray2 Qc) :
  let ny := nrows (slices 0) in
  let nx := ncols (slices 0) in
  ((forall k, k < ntile -> bc_ok (shape (slices k)) (ny, nx) = true) ->
   exists fld, read_tiles slices = Ok (Some (mk_assembled ny nx fld)) /\
               wf3 ny nx fld) /\
  ((exists k, k < ntile /\ bc_ok (shape (slices k)) (ny, nx) = false) ->
   read_tiles slices = Raise ValueError).
Proof.
  intros ny nx.
  set (J := fun st : option assembled =>
              exists fld, st = Some (mk_assembled ny nx fld) /\ wf3 ny nx fld).
  destruct (read_tile_first slices) as (fld0 & Hset0 & Hf0). fold ny nx in Hset0, Hf0.
  assert (Hhead : read_tiles slices
                  = foldM (read_tile slices) [1; 2; 3; 4; 5]
                          (Some (mk_assembled ny nx fld0))).
  { unfold read_tiles, range, ntile. cbn [seq foldM]. rewrite Hset0. reflexivity. }
  rewrite Hhead. split.
  - intros Hall.
    destruct (@foldM_invariant _ _ J (read_tile slices) [1; 2; 3; 4; 5]
                (Some (mk_assembled ny nx fld0))) as (st' & -> & (fld & -> & Hf)).
    + exists fld0. auto.
    + intros st y Hy (fld & -> & Hf).
      destruct (@read_tile_next slices ny nx fld y Hf) as [(_ & fld' & -> & Hf')|(Hno & _)].
      * unfold ntile. simpl in Hy. lia.
      * eexists. split; [reflexivity|]. exists fld'. auto.
      * rewrite Hall in Hno by (unfold ntile; simpl in Hy; lia). discriminate.
    + exists fld. auto.
  - intros (k & Hk & Hno).
    assert (Hk0 : k <> 0).
    { intros ->. change (ny, nx) with (shape (slices 0)) in Hno.
      rewrite bc_ok_refl in Hno. discriminate. }
    apply (@foldM_raises_inv _ _ J (read_tile slices) ValueError [1; 2; 3; 4; 5] k).
    + exists fld0. auto.
    + unfold ntile in Hk. simpl. lia.
    + intros st y Hy (fld & -> & Hf).
      destruct (@read_tile_next slices ny nx fld y Hf) as [(_ & fld' & -> & Hf')|(_ & ->)].
      * unfold ntile. simpl in Hy. lia.
      * left. eexists. split; [reflexivity|]. exists fld'. auto.
      * right. reflexivity.
    + intros st (fld & -> & Hf).
      destruct (@read_tile_next slices ny nx fld k Hf) as [(Hok & _)|(_ & ->)];
        [lia | congruence | reflexivity].
Qed.

(** The second loop: the difference with the baseline. *)
Lemma bc_dim_axis (n r : nat) :
  match bc_dim n r with
  | Ok R => bc_axis R n = bc_axis r n
  | Raise e => e = ValueError /\ bc_axis r n = false
  end.
Proof.
  unfold bc_dim, bc_axis.
  destruct (Nat.eqb_spec n r) as [->|Hnr].
  - reflexivity.
  - destruct (Nat.eqb_spec n 1) as [->|Hn1]; [reflexivity|].
    destruct (Nat.eqb_spec r 1) as [->|Hr1].
    + rewrite Nat.eqb_refl. now destruct (1 =? n).
    + split; [reflexivity|].
      destruct (Nat.eqb_spec r n); [congruence | reflexivity].
Qed.

Lemma subtract_tile_spec (base : nat -> ndarray2 Qc) (ny nx : nat) (fld : field)
      (itile : nat) :
  wf3 ny nx fld -> itile < ntile ->
  (bc_ok (shape (base itile)) (ny, nx) = true /\
   exists fld', subtract_tile base fld itile = Ok fld' /\ wf3 ny nx fld') \/
  (bc_ok (shape (base itile)) (ny, nx) = false /\
   subtract_tile base fld itile = Raise ValueError).
Proof.
  intros Hf Ht. unfold subtract_tile.
  destruct (gettile_wf3 Hf Ht) as (t & -> & _ & _ & Hr & Hc). cbn [bind].
  unfold nd_sub. rewrite Hr, Hc.
  unfold bc_ok, shape. cbn [fst snd].
  pose proof (bc_dim_axis ny (nrows (base itile))) as HR.
  pose proof (bc_dim_axis nx (ncols (base itile))) as HC.
  destruct (bc_dim ny (nrows (base itile))) as [R|e1]; cbn [bind].
  - destruct (bc_dim nx (ncols (base itile))) as [C|e2]; cbn [bind].
    + rewrite <- HR, <- HC.
      match goal with
      | |- context [settile fld itile ?d] =>
          destruct (settile_spec d Hf Ht) as [(Hok & H)|(Hno & H)]
      end; [left | right]; (split; [assumption | exact H]).
    + destruct HC as [-> HC]. right. rewrite HC, andb_false_r. auto.
  - destruct HR as [-> HR]. right. rewrite HR. auto.
Qed.

Lemma subtract_base_spec (base : nat -> ndarray2 Qc) (ny nx : nat) (fld : field) :
  wf3 ny nx fld ->
  ((forall k, k < ntile -> bc_ok (shape (base k)) (ny, nx) = true) ->
   exists fld', subtract_base base fld = Ok fld' /\ wf3 ny nx fld') /\
  ((exists k, k < ntile /\ bc_ok (shape (base k)) (ny, nx) = false) ->
   subtract_base base fld = Raise ValueError).
Proof.
  intros Hf. unfold subtract_base. split.
  - intros Hall. apply foldM_invariant; [exact Hf|].
    intros s y Hy Hs. apply in_seq in Hy.
    destruct (@subtract_tile_spec base ny nx s y Hs) as [(_ & H)|(Hno & _)];
      [lia | exact H |].
    rewrite Hall in Hno by lia. discriminate.
  - intros (k & Hk & Hno).
    apply (@foldM_raises_inv _ _ (wf3 ny nx) (subtract_tile base) ValueError
             (range ntile) k); [exact Hf | apply in_seq; lia | |].
    + intros s y Hy Hs. apply in_seq in Hy.
      destruct (@subtract_tile_spec base ny nx s y Hs) as [(_ & H)|(_ & H)];
        [lia | left; exact H | right; exact H].
    + intros s Hs.
      destruct (@subtract_tile_spec base ny nx s k Hs Hk) as [(Hok & _)|(_ & H)];
        [congruence | exact H].
Qed.

(** C4, amended.  In the per-tile layout the script has no shape check of
    its own: the assignment [fld[itile,:,:] = fld_tmp] broadcasts.
    Assembly raises (numpy's [ValueError]) as soon as the slice of some
    tile cannot be broadcast to the shape of the first tile's slice, that
    is, has an axis that is neither of the first tile's length nor of
    length one, and likewise for a slice of the baseline against the
    shape of the field; then no field is returned.  When every slice can
    be broadcast, assembly returns a field of six tiles of the first
    tile's shape. *)
Theorem C4_assemble_shape_errors (slices base : nat -> ndarray2 Qc) :
  let shp := shape (slices 0) in
  ((exists k, k < ntile /\ bc_ok (shape (slices k)) shp = false) ->
   forall basefile, assemble slices basefile = Raise ValueError) /\
  ((forall k, k < ntile -> bc_ok (shape (slices k)) shp = true) ->
   (exists s, assemble slices None = Ok s /\
              (a_ny s, a_nx s) = shp /\ wf3 (a_ny s) (a_nx s) (a_fld s)) /\
   ((exists k, k < ntile /\ bc_ok (shape (base k)) shp = false) ->
    assemble slices (Some base) = Raise ValueError) /\
   ((forall k, k < ntile -> bc_ok (shape (base k)) shp = true) ->
    exists s, assemble slices (Some base) = Ok s /\
              (a_ny s, a_nx s) = shp /\ wf3 (a_ny s) (a_nx s) (a_fld s))).
Proof.
  intros shp. destruct (read_tiles_spec slices) as [Hgood Hbad].
  cbv zeta in Hgood, Hbad. unfold assemble. split.
  - intros Hk basefile. rewrite (Hbad Hk). reflexivity.
  - intros Hall. destruct (Hgood Hall) as (fld & -> & Hf). cbn [bind].
    split; [|split].
    + eexists. split; [reflexivity|]. split; [reflexivity | exact Hf].
    + intros Hk. cbn [a_fld].
      rewrite (proj2 (subtract_base_spec base Hf) Hk). reflexivity.
    + intros Hb. cbn [a_fld a_ny a_nx].
      destruct (proj1 (subtract_base_spec base Hf) Hb) as (fld' & -> & Hf').
      cbn [bind]. eexists. split; [reflexivity|]. split; [reflexivity | exact Hf'].
Qed.

Lemma C4_assemble_shape_errors_witness :
  assemble bad_slices None = Raise ValueError /\
  exists s, assemble row_slices None = Ok s /\ (a_ny s, a_nx s) = (2, 2).
Proof.
  destruct (@C4_assemble_shape_errors bad_slices bad_slices) as [Hbad _].
  destruct (@C4_assemble_shape_errors row_slices row_slices) as [_ Hgood].
  split.
  - apply Hbad. exists 1. split; [unfold ntile; lia | reflexivity].
  - destruct Hgood as ((s & Hs & Hshape & _) & _).
    + intros k Hk. unfold ntile in Hk.
      do 6 (destruct k as [|k]; [reflexivity|]). lia.
    + exists s. split; [exact Hs | exact Hshape].
Defined.

(** C4, as the specification states it, fails: the slice of tile 2 has a
    shape other than the first tile's, and assembly returns a field, in
    which the single row of that slice is repeated. *)
Lemma C4_shape_mismatch_refuted :
  shape (row_slices 1) <> shape (row_slices 0) /\
  exists s, assemble row_slices None = Ok s /\
            getitem3 (a_fld s) 1 1 0 = Ok (qz 7).
Proof.
  split; [discriminate|].
  eexists. split; [vm_compute; reflexivity|].
  vm_compute. reflexivity.
Qed.

(** ** The value of a block and the mean of its cells *)

(** C1, evaluated.  With [average = 2] the loop reads the cells
    [(iy+ixa, ix+ixa)] only, twice each: on the block [[1,2],[3,4]] the
    value is 2.5, which happens to be the mean, but on [[1,2],[3,5]] it
    is 3 while the mean of the four cells is 11/4. *)
Theorem C1_block_value_is_not_block_mean :
  (normavg <- compute_normavg 2 ;; block_value demo_field 2 normavg 0 0 0)
    = Ok (Q2Qc (5 # 2)) /\
  block_mean demo_tile 2 0 0 = Q2Qc (5 # 2) /\
  (normavg <- compute_normavg 2 ;; block_value skew_field 2 normavg 0 0 0)
    = Ok (qz 3) /\
  block_mean skew_tile 2 0 0 = Q2Qc (11 # 4) /\
  qz 3 <> block_mean skew_tile 2 0 0.
Proof.
  assert (Hm : block_mean skew_tile 2 0 0 = Q2Qc (11 # 4))
    by (apply Qc_is_canon; reflexivity).
  split; [|split; [|split; [|split]]].
  - vm_compute. f_equal. apply Qc_is_canon. reflexivity.
  - apply Qc_is_canon. reflexivity.
  - vm_compute. f_equal. apply Qc_is_canon. reflexivity.
  - exact Hm.
  - rewrite Hm. intros H. apply (f_equal this) in H. vm_compute in H.
    discriminate.
Qed.

(** * Further properties of the script *)

(** ** The value range encloses the field *)

Lemma values_nil_of_empty (ny nx : nat) (fld : field) :
  wf3 ny nx fld -> ny = 0 \/ nx = 0 -> values fld = [].
Proof.
  intros [_ Hall] Hz. unfold values.
  induction Hall as [|t ts (Hwf & Hr & Hc) _ IH]; [reflexivity|].
  cbn [map concat]. rewrite IH, app_nil_r.
  destruct Hwf as [Hlen Hrows]. rewrite Hr in Hlen. rewrite Hc in Hrows.
  clear IH Hr Hc. destruct Hz as [-> | ->].
  - destruct (cells t); [reflexivity | discriminate].
  - clear Hlen. induction Hrows as [|r rs Hr _ IH]; [reflexivity|].
    cbn [concat]. destruct r; [exact IH | discriminate].
Qed.



(** X2. On a field without cells (tiles with [ny = 0] or [nx = 0]) the
    script stops at the value range with [ValueError], whatever the
    arguments: neither path is reached. *)
Theorem X2_empty_field_raises (args : Args) (ny nx : nat)
        (fld vlons vlats : ndarray3 Qc) :
  wf3 ny nx fld -> ny = 0 \/ nx = 0 ->
  compute_range (centered args) fld = Raise ValueError /\
  raster args ny nx fld vlons vlats = Raise ValueError.
Proof.
  intros Hf Hz.
  assert (Hr : compute_range (centered args) fld = Raise ValueError).
  { unfold compute_range. rewrite (values_nil_of_empty Hf Hz).
    destruct (centered args); reflexivity. }
  split; [exact Hr|]. unfold raster. rewrite Hr. reflexivity.
Qed.

Lemma wf3_empty_field : wf3 0 0 (repeat (full 0 0 0%Qc) ntile).
Proof.
  apply wf3_zeros.
Qed.

Lemma X2_empty_field_raises_witness :
  raster (mk_args true true 1 (qz 0)) 0 0 (repeat (full 0 0 0%Qc) ntile) [] []
  = Raise ValueError.
Proof.
  apply (@X2_empty_field_raises (mk_args true true 1 (qz 0)) 0 0
           (repeat (full 0 0 0%Qc) ntile) [] [] wf3_empty_field).
  left. reflexivity.
Defined.

(** X3. With [average = 0] on a field that has values the script raises
    [ZeroDivisionError] at the averaging norm, in the cross mode as well
    as in the polygon mode. *)
Theorem X3_zero_average_raises (args : Args) (ny nx : nat)
        (fld vlons vlats : ndarray3 Qc) :
  values fld <> [] -> average args = 0 ->
  raster args ny nx fld vlons vlats = Raise ZeroDivisionError.
Proof.
  intros Hne Ha. unfold raster.
  assert (Hr : exists r, compute_range (centered args) fld = Ok r).
  { unfold compute_range. destruct (centered args).
    - destruct (@amax_spec (map Qcabs (values fld))) as (m & -> & _).
      { destruct (values fld); [congruence | discriminate]. }
      eexists. reflexivity.
    - destruct (amin_spec Hne) as (lo & -> & _).
      destruct (amax_spec Hne) as (hi & -> & _). eexists. reflexivity. }
  destruct Hr as (r & ->). rewrite Ha. reflexivity.
Qed.

Lemma X3_zero_average_raises_witness :
  raster (mk_args false true 0 (qz 0)) 2 2 demo_field [] []
  = Raise ZeroDivisionError.
Proof.
  apply (@X3_zero_average_raises (mk_args false true 0 (qz 0)) 2 2
           demo_field [] []); [vm_compute; discriminate | reflexivity].
Defined.

(** ** The cross atlas, tile by tile *)

Lemma setslice_bad {A : Type} {dA : Dflt A} (dst src : ndarray2 A)
      (r0 r1 c0 c1 : nat) :
  r0 <= r1 <= nrows dst -> c0 <= c1 <= ncols dst ->
  bc_ok (shape src) (r1 - r0, c1 - c0) = false ->
  setslice dst r0 r1 c0 c1 src = Raise ValueError.
Proof.
  intros Hr Hc Hbad. unfold setslice, slice_bounds.
  replace (Nat.min r1 (nrows dst)) with r1 by lia.
  replace (Nat.min c1 (ncols dst)) with c1 by lia.
  replace (Nat.min r0 r1) with r0 by lia.
  replace (Nat.min c0 c1) with c0 by lia.
  unfold broadcast_to. rewrite Hbad. reflexivity.
Qed.

(** X4. On tiles that are not square ([ny <> nx]) the cross path
    raises [ValueError]: the slice that receives tile 0 has shape
    [(nx, ny)] and the tile, of shape [(ny, nx)], cannot be broadcast
    to it. *)
Theorem X4_cross_needs_square_tiles (ny nx : nat) (fld : field) :
  wf3 ny nx fld -> ny <> nx ->
  build_cross nx ny fld = Raise ValueError.
Proof.
  intros Hf Hne.
  destruct (wf3_tiles Hf) as (t0 & t1 & t2 & t3 & t4 & t5 & -> & Hall).
  inversion Hall as [|? ? (_ & Hr & Hc) _]; subst.
  unfold build_cross, gettile; cbn [nth_error bind].
  rewrite (@setslice_bad _ _ (full (3 * ncols t0) (4 * nrows t0) Inf)
             (as_fval t0) (1 * ncols t0) (2 * ncols t0)
             (1 * nrows t0) (2 * nrows t0)).
  - reflexivity.
  - cbn [full tabulate2 nrows]. lia.
  - cbn [full tabulate2 ncols]. lia.
  - unfold bc_ok, bc_axis, shape. cbn [fst snd nrows ncols as_fval map_nd].
    replace (2 * ncols t0 - 1 * ncols t0) with (ncols t0) by lia.
    replace (2 * nrows t0 - 1 * nrows t0) with (nrows t0) by lia.
    destruct (Nat.eqb_spec (nrows t0) (ncols t0)) as [E|_]; [contradiction|].
    destruct (Nat.eqb_spec (ncols t0) (nrows t0)) as [E|_]; [congruence|].
    cbn [orb].
    destruct (Nat.eqb_spec (nrows t0) 1) as [E1|_]; [|reflexivity].
    destruct (Nat.eqb_spec (ncols t0) 1) as [E2|_]; [congruence | reflexivity].
Qed.

Lemma wf3_tall_field : wf3 3 2 (repeat tall_tile ntile).
Proof.
  split; [reflexivity|].
  repeat constructor.
Qed.

Lemma X4_cross_needs_square_tiles_witness :
  build_cross 2 3 (repeat tall_tile ntile) = Raise ValueError.
Proof.
  apply (@X4_cross_needs_square_tiles 3 2 (repeat tall_tile ntile)
           wf3_tall_field). lia.
Defined.

(** X5. On square tiles of edge [n] every cell of every tile is in the
    atlas: tiles 0, 1 and 5 are copied as they are, tile 2 is turned so
    that atlas cell [(2n+i, n+j)] is its cell [(n-1-j, i)], and tiles 3
    and 4 so that atlas cells [(n+i, 3n+j)] and [(n+i, j)] are their
    cells [(j, n-1-i)]. *)
Theorem X5_cross_atlas_tiles (n : nat) (fld : field) :
  wf3 n n fld ->
  exists c,
    build_cross n n fld = Ok c /\
    forall i j, i < n -> j < n ->
      getitem2 c (n + i) (n + j) = as_cell (getitem3 fld 0 i j) /\
      getitem2 c (n + i) (2 * n + j) = as_cell (getitem3 fld 1 i j) /\
      getitem2 c (2 * n + i) (n + j) = as_cell (getitem3 fld 2 (n - 1 - j) i) /\
      getitem2 c (n + i) (3 * n + j) = as_cell (getitem3 fld 3 j (n - 1 - i)) /\
      getitem2 c (n + i) j = as_cell (getitem3 fld 4 j (n - 1 - i)) /\
      getitem2 c i (n + j) = as_cell (getitem3 fld 5 i j).
Proof.
  intros Hwf.
  destruct (build_cross_spec Hwf) as (c & Hc & Hr & Hk & _ & Hcell).
  exists c. split; [exact Hc|].
  destruct (wf3_tiles Hwf) as (t0 & t1 & t2 & t3 & t4 & t5 & -> & Hall).
  repeat match goal with
         | H : Forall _ (_ :: _) |- _ => inversion H; subst; clear H
         end.
  repeat match goal with
         | H : wf2 _ /\ _ /\ _ |- _ => destruct H as (? & ? & ?)
         end.
  intros i j Hi Hj.
  destruct (rot90_3_spec (as_fval t2)) as (_ & _ & Hrot2).
  destruct (rot90_1_spec (as_fval t3)) as (_ & _ & Hrot3).
  destruct (rot90_1_spec (as_fval t4)) as (_ & _ & Hrot4).
  cbn [as_fval map_nd nrows ncols] in Hrot2, Hrot3, Hrot4.
  unfold getitem3, gettile; cbn [nth_error bind].
  rewrite !getitem2_Ok by lia. cbn [as_cell bind].
  rewrite !Hcell, !cross_cell_unfold by lia.
  repeat split; range_cases; f_equal.
  - replace (n + i - 1 * n) with i by lia.
    replace (n + j - 1 * n) with j by lia.
    apply getd_map_nd; [assumption | lia | lia].
  - replace (n + i - 1 * n) with i by lia.
    replace (2 * n + j - 2 * n) with j by lia.
    apply getd_map_nd; [assumption | lia | lia].
  - rewrite Hrot2 by lia.
    replace (2 * n + i - 2 * n) with i by lia.
    replace (n + j - 1 * n) with j by lia.
    replace (nrows t2) with n by lia.
    apply getd_map_nd; [assumption | lia | lia].
  - rewrite Hrot3 by lia.
    replace (n + i - 1 * n) with i by lia.
    replace (3 * n + j - 3 * n) with j by lia.
    replace (ncols t3) with n by lia.
    apply getd_map_nd; [assumption | lia | lia].
  - rewrite Hrot4 by lia.
    replace (n + i - 1 * n) with i by lia.
    replace (j - 0 * n) with j by lia.
    replace (ncols t4) with n by lia.
    apply getd_map_nd; [assumption | lia | lia].
  - replace (i - 0 * n) with i by lia.
    replace (n + j - 1 * n) with j by lia.
    apply getd_map_nd; [assumption | lia | lia].
Qed.

Lemma X5_cross_atlas_tiles_witness :
  exists c,
    build_cross 2 2 demo_field = Ok c /\
    getitem2 c 3 6 = as_cell (getitem3 demo_field 3 0 0).
Proof.
  destruct (@X5_cross_atlas_tiles 2 demo_field wf3_demo_field) as (c & Hc & H).
  exists c. split; [exact Hc|].
  destruct (H 1 0) as (_ & _ & _ & H3 & _); [lia | lia | exact H3].
Defined.

(** ** The value of a block, in general *)









(** ** The list of patches *)

Lemma emitted_cells (fld vlons vlats : ndarray3 Qc) (a : nat)
      (threshold normavg : Qc) (cs : list (nat * nat * nat)) :
  map p_cell (flat_map (emit fld vlons vlats a threshold normavg) cs)
  = filter (passes fld a threshold normavg) cs.
Proof.
  induction cs as [|c cs IH]; [reflexivity|].
  cbn [flat_map filter]. rewrite map_app, IH. unfold emit at 1, passes at 2.
  destruct (Qle_bool threshold (Qcabs (cell_value fld a normavg c))); reflexivity.
Qed.

Lemma emitted_patch (fld vlons vlats : ndarray3 Qc) (a : nat)
      (threshold normavg : Qc) (cs : list (nat * nat * nat)) (p : patch) :
  In p (flat_map (emit fld vlons vlats a threshold normavg) cs) ->
  In (p_cell p) cs /\
  p = mk_patch (p_cell p) (corners vlons vlats a (p_cell p))
               (cell_value fld a normavg (p_cell p)) /\
  passes fld a threshold normavg (p_cell p) = true.
Proof.
  intros Hp. apply in_flat_map in Hp. destruct Hp as (c & Hc & Hp).
  unfold emit in Hp.
  destruct (Qle_bool threshold (Qcabs (cell_value fld a normavg c))) eqn:E;
    [|destruct Hp].
  destruct Hp as [<-|[]]. cbn [p_cell]. repeat split; assumption.
Qed.

Lemma StronglySorted_map_mono {X Y : Type} (R : X -> X -> Prop)
      (Q : Y -> Y -> Prop) (f : X -> Y) (l : list X) :
  (forall x y, R x y -> Q (f x) (f y)) ->
  StronglySorted R l -> StronglySorted Q (map f l).
Proof.
  intros Hf Hs. induction Hs as [|x l Hs IH Hx]; cbn [map]; constructor.
  - exact IH.
  - apply Forall_forall. intros y Hy. apply in_map_iff in Hy.
    destruct Hy as (z & <- & Hz). apply Hf.
    rewrite Forall_forall in Hx. apply Hx, Hz.
Qed.

Lemma StronglySorted_seq (start len : nat) : StronglySorted lt (seq start len).
Proof.
  revert start. induction len as [|len IH]; intros start; cbn [seq]; constructor.
  - apply IH.
  - apply Forall_forall. intros y Hy. apply in_seq in Hy. lia.
Qed.

Lemma StronglySorted_origins (n a : nat) :
  1 <= a -> StronglySorted lt (origins n a).
Proof.
  intros Ha. unfold origins.
  apply (@StronglySorted_map_mono _ _ lt lt); [|apply StronglySorted_seq].
  intros x y Hxy. nia.
Qed.

Lemma StronglySorted_app {X : Type} (R : X -> X -> Prop) (l l' : list X) :
  StronglySorted R l -> StronglySorted R l' ->
  (forall x y, In x l -> In y l' -> R x y) ->
  StronglySorted R (l ++ l').
Proof.
  intros Hl Hl' Hx. induction Hl as [|x l Hs IH Hall]; cbn [app]; [exact Hl'|].
  constructor.
  - apply IH. intros; apply Hx; [right|]; assumption.
  - apply Forall_app. split; [exact Hall|].
    apply Forall_forall. intros y Hy. apply Hx; [left; reflexivity | exact Hy].
Qed.

Lemma StronglySorted_list_prod {X Y : Type} (R : X -> X -> Prop)
      (Q : Y -> Y -> Prop) (l : list X) (l' : list Y) :
  StronglySorted R l -> StronglySorted Q l' ->
  StronglySorted (fun c d => R (fst c) (fst d) \/
                             (fst c = fst d /\ Q (snd c) (snd d)))
                 (list_prod l l').
Proof.
  intros Hl Hl'. induction Hl as [|x l Hs IH Hall]; cbn [list_prod]; [constructor|].
  apply StronglySorted_app.
  - apply (@StronglySorted_map_mono _ _ Q); [|exact Hl'].
    intros y y' Hy. right. split; [reflexivity | exact Hy].
  - exact IH.
  - intros [x1 y1] [x2 y2] H1 H2. apply in_map_iff in H1.
    destruct H1 as (y & [= <- <-] & _). apply in_prod_iff in H2.
    left. cbn [fst]. rewrite Forall_forall in Hall. apply Hall, H2.
Qed.

Lemma StronglySorted_weaken {X : Type} (R Q : X -> X -> Prop) (l : list X) :
  (forall x y, R x y -> Q x y) -> StronglySorted R l -> StronglySorted Q l.
Proof.
  intros H Hs. rewrite <- (map_id l).
  apply (@StronglySorted_map_mono _ _ R Q (fun x => x)); assumption.
Qed.

Lemma StronglySorted_filter {X : Type} (R : X -> X -> Prop) (f : X -> bool)
      (l : list X) :
  StronglySorted R l -> StronglySorted R (filter f l).
Proof.
  intros Hs. induction Hs as [|x l Hs IH Hall]; cbn [filter]; [constructor|].
  destruct (f x); [|exact IH]. constructor; [exact IH|].
  apply Forall_forall. intros y Hy. apply filter_In in Hy.
  rewrite Forall_forall in Hall. apply Hall, Hy.
Qed.

Lemma blocks_sorted (ny nx a : nat) :
  1 <= a -> StronglySorted cell_lt (blocks ny nx a).
Proof.
  intros Ha. unfold blocks.
  eapply StronglySorted_weaken;
    [|apply (@StronglySorted_list_prod _ _
               (fun c d : nat * nat =>
                  fst c < fst d \/ (fst c = fst d /\ snd c < snd d)) lt);
      [apply (@StronglySorted_list_prod _ _ lt lt);
       [apply StronglySorted_seq | apply StronglySorted_origins, Ha]
      | apply StronglySorted_origins, Ha]].
  intros [[t y] x] [[t' y'] x']. cbn [fst snd cell_lt].
  intros [[H|[-> H]]|[[= -> ->] H]]; auto 6.
Qed.

(** X7. On a run that reads no cell out of range the patches come in
    the order of the loops, by tile, then by row origin, then by column
    origin, strictly increasing: the cells of the patches are the blocks
    that pass the threshold test, in the order of the blocks, and each
    patch carries the value computed for its block. *)
Theorem X7_patches_in_loop_order (ny nx : nat) (fld vlons vlats : ndarray3 Qc)
        (a : nat) (threshold normavg : Qc) :
  1 <= a -> ny mod a = 0 -> nx mod a = 0 ->
  wf3 ny nx fld -> wf3 (ny + 1) (nx + 1) vlons -> wf3 (ny + 1) (nx + 1) vlats ->
  exists patches,
    build_polygons ny nx fld vlons vlats a threshold normavg = Ok patches /\
    map p_cell patches
      = filter (passes fld a threshold normavg) (blocks ny nx a) /\
    StronglySorted cell_lt (map p_cell patches) /\
    forall p, In p patches ->
      block_value fld a normavg (fst (fst (p_cell p))) (snd (fst (p_cell p)))
                  (snd (p_cell p)) = Ok (p_value p).
Proof.
  intros Ha Hy Hx Hf Hlon Hlat.
  eexists. split; [apply build_polygons_spec; assumption|].
  split; [apply emitted_cells|]. split.
  - rewrite emitted_cells. apply StronglySorted_filter, blocks_sorted, Ha.
  - intros p Hp. apply emitted_patch in Hp. destruct Hp as (Hin & Hp & _).
    destruct (p_cell p) as [[itile iy] ix] eqn:E.
    apply in_blocks in Hin. destruct Hin as (Ht & Hiy & Hix).
    apply (in_origins ny iy Ha) in Hiy. destruct Hiy as (ky & -> & Hky).
    apply (in_origins nx ix Ha) in Hix. destruct Hix as (kx & -> & Hkx).
    apply Nat.Div0.mod_divides in Hy, Hx.
    destruct Hy as (my & Hy), Hx as (mx & Hx).
    assert (Hky' : ky < my) by nia.
    assert (Hkx' : kx < mx) by nia.
    cbn [fst snd].
    destruct (@draw_block_Ok ny nx fld vlons vlats a threshold normavg
                itile (ky * a) (kx * a) [] Hf Hlon Hlat Ht) as [Hv _];
      [nia | nia |].
    rewrite Hv, Hp. reflexivity.
Qed.

Lemma X7_patches_in_loop_order_witness :
  exists patches,
    build_polygons 2 2 demo_field demo_grid demo_grid 1 (qz 2) 1%Qc
      = Ok patches /\
    StronglySorted cell_lt (map p_cell patches).
Proof.
  destruct (@X7_patches_in_loop_order 2 2 demo_field demo_grid demo_grid 1
              (qz 2) 1%Qc)
    as (patches & Hp & _ & Hs & _);
    [lia | reflexivity | reflexivity | exact wf3_demo_field
     | exact wf3_demo_grid | exact wf3_demo_grid |].
  exists patches. split; assumption.
Defined.




(** X9. Raising the threshold only removes patches: the patches of a run
    with threshold [t2 >= t1] are those of the run with [t1] whose value
    passes [t2], in the same order and unchanged. *)
Theorem X9_threshold_monotone (ny nx : nat) (fld vlons vlats : ndarray3 Qc)
        (a : nat) (t1 t2 normavg : Qc) :
  (t1 <= t2)%Qc ->
  1 <= a -> ny mod a = 0 -> nx mod a = 0 ->
  wf3 ny nx fld -> wf3 (ny + 1) (nx + 1) vlons -> wf3 (ny + 1) (nx + 1) vlats ->
  exists ps1 ps2,
    build_polygons ny nx fld vlons vlats a t1 normavg = Ok ps1 /\
    build_polygons ny nx fld vlons vlats a t2 normavg = Ok ps2 /\
    ps2 = filter (fun p => Qle_bool t2 (Qcabs (p_value p))) ps1.
Proof.
  intros Ht Ha Hy Hx Hf Hlon Hlat.
  do 2 eexists. split; [apply build_polygons_spec; assumption|].
  split; [apply build_polygons_spec; assumption|].
  induction (blocks ny nx a) as [|c cs IH]; [reflexivity|].
  cbn [flat_map]. rewrite filter_app, <- IH. f_equal.
  unfold emit.
  destruct (Qle_bool t2 (Qcabs (cell_value fld a normavg c))) eqn:E2.
  - assert (E1 : Qle_bool t1 (Qcabs (cell_value fld a normavg c)) = true).
    { apply Qle_bool_iff. apply Qle_bool_iff in E2.
      apply (Qcle_trans _ _ _ Ht E2). }
    rewrite E1. cbn [filter p_value]. rewrite E2. reflexivity.
  - destruct (Qle_bool t1 (Qcabs (cell_value fld a normavg c))); [|reflexivity].
    cbn [filter p_value]. rewrite E2. reflexivity.
Qed.

Lemma X9_threshold_monotone_witness :
  exists ps1 ps2,
    build_polygons 2 2 demo_field demo_grid demo_grid 1 (qz 0) 1%Qc = Ok ps1 /\
    build_polygons 2 2 demo_field demo_grid demo_grid 1 (qz 3) 1%Qc = Ok ps2 /\
    ps2 = filter (fun p => Qle_bool (qz 3) (Qcabs (p_value p))) ps1.
Proof.
  apply (@X9_threshold_monotone 2 2 demo_field demo_grid demo_grid 1
           (qz 0) (qz 3) 1%Qc);
    [vm_compute; discriminate | lia | reflexivity | reflexivity
     | exact wf3_demo_field | exact wf3_demo_grid | exact wf3_demo_grid].
Defined.

(** X10. Neighbouring patches share their corners: in the output of a
    run that reads no cell out of range, the second and third corners of
    the patch of a block are the first and fourth corners of the patch
    of the block to its right (same tile, column origin plus
    [average]), and its fourth and third corners are the first and
    second corners of the patch of the block below. *)
Theorem X10_neighbours_share_corners (ny nx : nat)
        (fld vlons vlats : ndarray3 Qc) (a : nat) (threshold normavg : Qc)
        (patches : list patch) (p q : patch) (itile iy ix : nat) :
  build_polygons ny nx fld vlons vlats a threshold normavg = Ok patches ->
  1 <= a -> ny mod a = 0 -> nx mod a = 0 ->
  wf3 ny nx fld -> wf3 (ny + 1) (nx + 1) vlons -> wf3 (ny + 1) (nx + 1) vlats ->
  In p patches -> In q patches -> p_cell p = (itile, iy, ix) ->
  (p_cell q = (itile, iy, ix + a) ->
   nth_error (p_xy p) 1 = nth_error (p_xy q) 0 /\
   nth_error (p_xy p) 2 = nth_error (p_xy q) 3) /\
  (p_cell q = (itile, iy + a, ix) ->
   nth_error (p_xy p) 3 = nth_error (p_xy q) 0 /\
   nth_error (p_xy p) 2 = nth_error (p_xy q) 1).
Proof.
  intros Hrun Ha Hy Hx Hf Hlon Hlat Hp Hq Hcp.
  rewrite (@build_polygons_spec ny nx fld vlons vlats a threshold normavg
             Ha Hy Hx Hf Hlon Hlat) in Hrun.
  injection Hrun as <-.
  apply emitted_patch in Hp, Hq.
  destruct Hp as (_ & Hp & _), Hq as (_ & Hq & _).
  rewrite Hcp in Hp. split; intros Hcq; rewrite Hcq in Hq; rewrite Hp, Hq;
    cbn [p_xy corners nth_error]; split; reflexivity.
Qed.

Lemma X10_neighbours_share_corners_witness :
  exists patches p q,
    build_polygons 2 2 demo_field demo_grid demo_grid 1 (qz 0) 1%Qc
      = Ok patches /\
    In p patches /\ In q patches /\
    p_cell p = (0, 0, 0) /\ p_cell q = (0, 0, 0 + 1) /\
    nth_error (p_xy p) 1 = nth_error (p_xy q) 0.
Proof.
  assert (Hrun : build_polygons 2 2 demo_field demo_grid demo_grid 1 (qz 0) 1%Qc
                 = Ok (flat_map (emit demo_field demo_grid demo_grid 1 (qz 0) 1%Qc)
                                (blocks 2 2 1))).
  { apply build_polygons_spec;
      [lia | reflexivity | reflexivity | exact wf3_demo_field
       | exact wf3_demo_grid | exact wf3_demo_grid]. }
  assert (Hin : forall c, In c (blocks 2 2 1) ->
            In (mk_patch c (corners demo_grid demo_grid 1 c)
                         (cell_value demo_field 1 1%Qc c))
               (flat_map (emit demo_field demo_grid demo_grid 1 (qz 0) 1%Qc)
                         (blocks 2 2 1))).
  { intros c Hc. apply in_flat_map. exists c. split; [exact Hc|].
    unfold emit.
    assert (E : Qle_bool (qz 0) (Qcabs (cell_value demo_field 1 1%Qc c)) = true).
    { apply Qle_bool_iff. apply (Qcabs_nonneg (cell_value demo_field 1 1%Qc c)). }
    rewrite E. left. reflexivity. }
  pose (p0 := mk_patch (0, 0, 0) (corners demo_grid demo_grid 1 (0, 0, 0))
                       (cell_value demo_field 1 1%Qc (0, 0, 0))).
  pose (q0 := mk_patch (0, 0, 0 + 1)
                       (corners demo_grid demo_grid 1 (0, 0, 0 + 1))
                       (cell_value demo_field 1 1%Qc (0, 0, 0 + 1))).
  eexists. exists p0, q0.
  split; [exact Hrun|].
  assert (H0 : In (0, 0, 0) (blocks 2 2 1)) by (cbv; tauto).
  assert (H1 : In (0, 0, 0 + 1) (blocks 2 2 1)) by (cbv; tauto).
  split; [apply Hin, H0|]. split; [apply Hin, H1|].
  split; [reflexivity|]. split; [reflexivity|].
  destruct (@X10_neighbours_share_corners 2 2 demo_field demo_grid demo_grid 1
              (qz 0) 1%Qc _ p0 q0 0 0 0 Hrun) as [H _];
    [lia | reflexivity | reflexivity | exact wf3_demo_field
     | exact wf3_demo_grid | exact wf3_demo_grid | apply Hin, H0
     | apply Hin, H1 | reflexivity |].
  apply H. reflexivity.
Defined.



(** ** The cells of the assembled field *)

(** A loop that never raises, with an invariant that knows which
    elements have been processed. *)
Lemma foldM_prefix_invariant {S X : Type} (I : list X -> S -> Prop)
      (body : S -> X -> result S) (xs : list X) (s0 : S) :
  I [] s0 ->
  (forall done x rest s, xs = done ++ x :: rest -> I done s ->
     exists s', body s x = Ok s' /\ I (done ++ [x]) s') ->
  exists s', foldM body xs s0 = Ok s' /\ I xs s'.
Proof.
  intros H0 Hstep.
  assert (H : forall rest done s, xs = done ++ rest -> I done s ->
            exists s', foldM body rest s = Ok s' /\ I xs s').
  { induction rest as [|x rest IH]; intros done s Hxs Hs.
    - rewrite app_nil_r in Hxs. subst done. exists s. auto.
    - destruct (Hstep done x rest s Hxs Hs) as (s1 & E & Hs1).
      cbn [foldM]. rewrite E. cbn [bind].
      apply (IH (done ++ [x])); [|exact Hs1].
      rewrite <- app_assoc. exact Hxs. }
  apply (H xs [] s0); [reflexivity | exact H0].
Qed.

Lemma nth_error_list_set_same {X : Type} (l : list X) (i : nat) (x : X) :
  i < length l -> nth_error (list_set l i x) i = Some x.
Proof.
  revert i. induction l as [|h t IH]; intros [|i] Hi; cbn in *; try lia.
  - reflexivity.
  - apply IH. lia.
Qed.

Lemma nth_error_list_set_other {X : Type} (l : list X) (i k : nat) (x : X) :
  k <> i -> nth_error (list_set l i x) k = nth_error l k.
Proof.
  revert i k. induction l as [|h t IH]; intros [|i] [|k] Hk; cbn; try reflexivity.
  - congruence.
  - apply IH. congruence.
Qed.

Lemma settile_get (ny nx : nat) (fld : field) (itile : nat) (src : ndarray2 Qc) :
  wf3 ny nx fld -> itile < ntile -> bc_ok (shape src) (ny, nx) = true ->
  exists fld',
    settile fld itile src = Ok fld' /\ wf3 ny nx fld' /\
    holds_broadcast ny nx fld' itile src /\
    forall k, k <> itile -> nth_error fld' k = nth_error fld k.
Proof.
  intros Hf Ht Hok. unfold settile.
  destruct (gettile_wf3 Hf Ht) as (t & -> & _ & _ & Hr & Hc). cbn [bind].
  unfold broadcast_to. rewrite Hr, Hc, Hok. cbn [bind].
  eexists. split; [reflexivity|]. destruct Hf as [Hlen Hall]. split; [|split].
  - split; [now rewrite length_list_set|].
    apply Forall_list_set; [exact Hall|].
    split; [apply wf2_tabulate2 | split; reflexivity].
  - eexists. split; [apply nth_error_list_set_same; lia|].
    intros i j Hi Hj. now rewrite getd_tabulate2.
  - intros k Hk. now apply nth_error_list_set_other.
Qed.

Lemma read_tiles_cells (slices : nat -> ndarray2 Qc) :
  let ny := nrows (slices 0) in
  let nx := ncols (slices 0) in
  (forall k, k < ntile -> bc_ok (shape (slices k)) (ny, nx) = true) ->
  exists fld,
    read_tiles slices = Ok (Some (mk_assembled ny nx fld)) /\
    wf3 ny nx fld /\
    forall k, k < ntile -> holds_broadcast ny nx fld k (slices k).
Proof.
  intros ny nx Hall.
  set (I := fun (done : list nat) (st : option assembled) =>
              exists fld, st = Some (mk_assembled ny nx fld) /\ wf3 ny nx fld /\
                          forall k, k = 0 \/ In k done ->
                                    holds_broadcast ny nx fld k (slices k)).
  assert (H0 : exists fld0,
            read_tile slices None 0 = Ok (Some (mk_assembled ny nx fld0)) /\
            I [] (Some (mk_assembled ny nx fld0))).
  { unfold read_tile. cbn [Nat.eqb a_fld a_ny a_nx]. fold ny nx.
    destruct (@settile_get ny nx (repeat (full ny nx 0%Qc) ntile) 0 (slices 0)
                (wf3_zeros ny nx)) as (fld0 & -> & Hf0 & Hb & _).
    - unfold ntile. lia.
    - apply bc_ok_refl.
    - cbn [bind]. exists fld0. split; [reflexivity|].
      exists fld0. split; [reflexivity|]. split; [exact Hf0|].
      intros k [->|[]]. exact Hb. }
  destruct H0 as (fld0 & Hfirst & HI0).
  destruct (@foldM_prefix_invariant _ _ I (read_tile slices) [1; 2; 3; 4; 5]
              (Some (mk_assembled ny nx fld0)) HI0)
    as (st & Hloop & (fld & -> & Hf & Hcells)).
  - intros done x rest st Hxs (fld & -> & Hf & Hcells).
    assert (Hx : In x [1; 2; 3; 4; 5]) by (rewrite Hxs; apply in_elt).
    assert (Hnd : NoDup (done ++ x :: rest)) by (rewrite <- Hxs; repeat constructor; cbn; lia).
    apply NoDup_remove_2 in Hnd.
    unfold read_tile.
    assert (E : (x =? 0) = false) by (apply Nat.eqb_neq; cbn in Hx; lia).
    rewrite E. cbn [a_fld a_ny a_nx].
    destruct (@settile_get ny nx fld x (slices x) Hf)
      as (fld' & -> & Hf' & Hb & Hother).
    + unfold ntile. cbn in Hx. lia.
    + apply Hall. unfold ntile. cbn in Hx. lia.
    + cbn [bind]. eexists. split; [reflexivity|].
      exists fld'. split; [reflexivity|]. split; [exact Hf'|].
      intros k Hk.
      destruct (Nat.eq_dec k x) as [->|Hne]; [exact Hb|].
      destruct (Hcells k) as (b & Hnth & Hbc).
      { destruct Hk as [Hk|Hk]; [left; exact Hk|].
        apply in_app_or in Hk. destruct Hk as [Hk|[<-|[]]];
          [right; exact Hk | congruence]. }
      exists b. split; [|exact Hbc]. rewrite Hother by exact Hne. exact Hnth.
  - exists fld. split; [|split; [exact Hf|]].
    + unfold read_tiles, range, ntile. cbn [seq foldM]. fold ntile.
      rewrite Hfirst. cbn [bind]. exact Hloop.
    + intros k Hk. apply Hcells. unfold ntile in Hk. cbn. lia.
Qed.

(** X12. When every slice can be broadcast to the shape [(ny, nx)] of
    the first tile's slice, the per-tile assembly returns [ny], [nx] and
    a field whose tile [k] is the slice of tile [k]: cell [(i, j)] is
    the slice's cell [(i, j)], or, along an axis where the slice has
    length one, its only cell.  A slice of the first tile's shape is
    copied cell by cell. *)
Theorem X12_assembled_cells (slices : nat -> ndarray2 Qc) :
  let ny := nrows (slices 0) in
  let nx := ncols (slices 0) in
  (forall k, k < ntile -> bc_ok (shape (slices k)) (ny, nx) = true) ->
  exists s,
    assemble slices None = Ok s /\ a_ny s = ny /\ a_nx s = nx /\
    forall k i j, k < ntile -> i < ny -> j < nx ->
      getitem3 (a_fld s) k i j
        = Ok (getd (slices k) (bc_index (nrows (slices k)) i)
                              (bc_index (ncols (slices k)) j)) /\
      (shape (slices k) = (ny, nx) ->
       getitem3 (a_fld s) k i j = getitem2 (slices k) i j).
Proof.
  intros ny nx Hall.
  destruct (read_tiles_cells slices Hall) as (fld & Hrt & Hf & Hcells).
  fold ny nx in Hrt, Hf, Hcells.
  exists (mk_assembled ny nx fld). unfold assemble. rewrite Hrt. cbn [bind].
  split; [reflexivity|]. split; [reflexivity|]. split; [reflexivity|].
  intros k i j Hk Hi Hj. cbn [a_fld].
  destruct (getitem3_Ok Hf Hk Hi Hj) as (t & Hnth & ->).
  destruct (Hcells k Hk) as (b & Hnth' & Hb).
  assert (b = t) by congruence. subst b.
  rewrite (Hb i j Hi Hj). split; [reflexivity|].
  intros [= Hr Hc]. rewrite getitem2_Ok by lia.
  rewrite !bc_index_lt by lia. reflexivity.
Qed.

Lemma X12_assembled_cells_witness :
  exists s,
    assemble row_slices None = Ok s /\ a_ny s = 2 /\ a_nx s = 2.
Proof.
  destruct (@X12_assembled_cells row_slices) as (s & Hs & Hy & Hx & _).
  - intros k Hk. unfold ntile in Hk.
    do 6 (destruct k as [|k]; [reflexivity|]). lia.
  - exists s. repeat split; assumption.
Defined.

Lemma bc_dim_ok (n r : nat) : bc_axis r n = true -> bc_dim n r = Ok n.
Proof.
  unfold bc_axis, bc_dim. intros H.
  destruct (Nat.eqb_spec n r) as [_|Hnr]; [reflexivity|].
  destruct (Nat.eqb_spec r n) as [E|_]; [congruence|]. cbn [orb] in H.
  apply Nat.eqb_eq in H. subst r.
  destruct (Nat.eqb_spec n 1) as [E|_]; [congruence | reflexivity].
Qed.

Lemma subtract_tile_get (base : nat -> ndarray2 Qc) (ny nx : nat) (fld : field)
      (itile : nat) :
  wf3 ny nx fld -> itile < ntile ->
  bc_ok (shape (base itile)) (ny, nx) = true ->
  exists fld' cur b,
    subtract_tile base fld itile = Ok fld' /\ wf3 ny nx fld' /\
    nth_error fld itile = Some cur /\ nth_error fld' itile = Some b /\
    (forall i j, i < ny -> j < nx ->
       getd b i j
       = (getd cur i j
          - getd (base itile) (bc_index (nrows (base itile)) i)
                              (bc_index (ncols (base itile)) j))%Qc) /\
    forall k, k <> itile -> nth_error fld' k = nth_error fld k.
Proof.
  intros Hf Ht Hok. unfold subtract_tile.
  destruct (gettile_wf3 Hf Ht) as (cur & -> & Hnth & _ & Hr & Hc). cbn [bind].
  unfold bc_ok, shape in Hok. cbn [fst snd] in Hok.
  apply andb_true_iff in Hok. destruct Hok as [Hok1 Hok2].
  unfold nd_sub. rewrite Hr, Hc, (bc_dim_ok _ _ Hok1), (bc_dim_ok _ _ Hok2).
  cbn [bind].
  match goal with
  | |- context [settile fld itile ?d] =>
      destruct (@settile_get ny nx fld itile d Hf Ht)
        as (fld' & -> & Hf' & (b & Hb & Hcells) & Hother);
      [apply bc_ok_refl|]
  end.
  exists fld', cur, b. split; [reflexivity|]. split; [exact Hf'|].
  split; [exact Hnth|]. split; [exact Hb|]. split; [|exact Hother].
  intros i j Hi Hj. rewrite (Hcells i j Hi Hj). cbn [nrows ncols tabulate2].
  rewrite !(bc_index_lt) by lia. rewrite getd_tabulate2 by lia.
  rewrite !(bc_index_lt) by lia. reflexivity.
Qed.

Lemma subtract_base_cells (base : nat -> ndarray2 Qc) (ny nx : nat) (fld : field) :
  wf3 ny nx fld ->
  (forall k, k < ntile -> bc_ok (shape (base k)) (ny, nx) = true) ->
  exists fld',
    subtract_base base fld = Ok fld' /\ wf3 ny nx fld' /\
    forall k, k < ntile ->
      exists cur b, nth_error fld k = Some cur /\ nth_error fld' k = Some b /\
        forall i j, i < ny -> j < nx ->
          getd b i j
          = (getd cur i j
             - getd (base k) (bc_index (nrows (base k)) i)
                             (bc_index (ncols (base k)) j))%Qc.
Proof.
  intros Hf Hall. unfold subtract_base.
  set (I := fun (done : list nat) (fld' : field) =>
              wf3 ny nx fld' /\
              forall k, k < ntile ->
                (In k done ->
                 exists cur b, nth_error fld k = Some cur /\
                               nth_error fld' k = Some b /\
                   forall i j, i < ny -> j < nx ->
                     getd b i j
                     = (getd cur i j
                        - getd (base k) (bc_index (nrows (base k)) i)
                                        (bc_index (ncols (base k)) j))%Qc) /\
                (~ In k done -> nth_error fld' k = nth_error fld k)).
  destruct (@foldM_prefix_invariant _ _ I (subtract_tile base) (range ntile) fld)
    as (fld' & Hloop & Hf' & Hcells).
  - split; [exact Hf|]. intros k Hk. split; [intros [] | reflexivity].
  - intros done x rest s Hxs (Hs & Hinv).
    assert (Hx : In x (range ntile)) by (rewrite Hxs; apply in_elt).
    apply in_seq in Hx.
    assert (Hnd : NoDup (done ++ x :: rest)) by (rewrite <- Hxs; apply seq_NoDup).
    apply NoDup_remove_2 in Hnd.
    destruct (@subtract_tile_get base ny nx s x Hs)
      as (s' & cur & b & -> & Hs' & Hcur & Hb & Hval & Hother);
      [lia | apply Hall; lia |].
    eexists. split; [reflexivity|]. split; [exact Hs'|].
    intros k Hk. destruct (Nat.eq_dec k x) as [->|Hne].
    + split.
      * intros _. exists cur, b.
        destruct (Hinv x Hk) as [_ Hkeep].
        rewrite <- Hkeep by (intros H; apply Hnd, in_or_app; left; exact H).
        auto.
      * intros H. exfalso. apply H, in_or_app. right. left. reflexivity.
    + destruct (Hinv k Hk) as [Hdone Hkeep]. rewrite Hother by exact Hne. split.
      * intros H. apply in_app_or in H. destruct H as [H|[<-|[]]];
          [apply Hdone, H | congruence].
      * intros H. apply Hkeep. intros H'. apply H, in_or_app. left. exact H'.
  - exists fld'. split; [exact Hloop|]. split; [exact Hf'|].
    intros k Hk. apply (Hcells k Hk). apply in_seq. lia.
Qed.

(** X13. With a baseline whose slices can all be broadcast to the shape
    of the field, the per-tile assembly returns the difference, cell by
    cell: [fld[k, i, j]] is the slice's cell minus the baseline's cell
    (its only cell along an axis of length one).  For slices and
    baseline slices of one shape this is
    [slices k [i, j] - base k [i, j]]. *)
Theorem X13_baseline_difference (slices base : nat -> ndarray2 Qc) :
  let ny := nrows (slices 0) in
  let nx := ncols (slices 0) in
  (forall k, k < ntile -> bc_ok (shape (slices k)) (ny, nx) = true) ->
  (forall k, k < ntile -> bc_ok (shape (base k)) (ny, nx) = true) ->
  exists s,
    assemble slices (Some base) = Ok s /\ a_ny s = ny /\ a_nx s = nx /\
    forall k i j, k < ntile -> i < ny -> j < nx ->
      getitem3 (a_fld s) k i j
        = Ok (getd (slices k) (bc_index (nrows (slices k)) i)
                              (bc_index (ncols (slices k)) j)
              - getd (base k) (bc_index (nrows (base k)) i)
                              (bc_index (ncols (base k)) j))%Qc /\
      (shape (slices k) = (ny, nx) -> shape (base k) = (ny, nx) ->
       getitem3 (a_fld s) k i j
         = (x <- getitem2 (slices k) i j ;;
            y <- getitem2 (base k) i j ;;
            Ok (x - y)%Qc)).
Proof.
  intros ny nx Hall Hbase.
  destruct (read_tiles_cells slices Hall) as (fld & Hrt & Hf & Hcells).
  fold ny nx in Hrt, Hf, Hcells.
  destruct (subtract_base_cells base Hf Hbase) as (fld' & Hsb & Hf' & Hdiff).
  exists (mk_assembled ny nx fld'). unfold assemble. rewrite Hrt. cbn [bind a_fld].
  rewrite Hsb. cbn [bind a_ny a_nx].
  split; [reflexivity|]. split; [reflexivity|]. split; [reflexivity|].
  intros k i j Hk Hi Hj. cbn [a_fld].
  destruct (getitem3_Ok Hf' Hk Hi Hj) as (t & Hnth & ->).
  destruct (Hdiff k Hk) as (cur & b & Hcur & Hb & Hval).
  assert (b = t) by congruence. subst b.
  destruct (Hcells k Hk) as (c & Hc & Hcv).
  assert (c = cur) by congruence. subst c.
  rewrite (Hval i j Hi Hj), (Hcv i j Hi Hj). split; [reflexivity|].
  intros [= Hr1 Hc1] [= Hr2 Hc2].
  rewrite !getitem2_Ok by lia. cbn [bind].
  rewrite !bc_index_lt by lia. reflexivity.
Qed.

Lemma X13_baseline_difference_witness :
  exists s,
    assemble row_slices (Some row_slices) = Ok s /\ a_ny s = 2 /\ a_nx s = 2.
Proof.
  assert (H : forall k, k < ntile ->
            bc_ok (shape (row_slices k))
                  (nrows (row_slices 0), ncols (row_slices 0)) = true).
  { intros k Hk. unfold ntile in Hk.
    do 6 (destruct k as [|k]; [reflexivity|]). lia. }
  destruct (@X13_baseline_difference row_slices row_slices H H)
    as (s & Hs & Hy & Hx & _).
  exists s. repeat split; assumption.
Defined.

(** ** File names *)

Module PathFacts.
Import String Ascii Paths.
Local Open Scope string_scope.

Lemma append_nil_r (s : string) : s ++ "" = s.
Proof.
  induction s as [|c s IH]; cbn; [reflexivity | now rewrite IH].
Qed.

Lemma append_assoc (a b c : string) : (a ++ b) ++ c = a ++ b ++ c.
Proof.
  induction a as [|x a IH]; cbn; [reflexivity | now rewrite IH].
Qed.

Lemma length_append (a b : string) : length (a ++ b) = (length a + length b)%nat.
Proof.
  induction a as [|x a IH]; cbn; [reflexivity | now rewrite IH].
Qed.

Lemma append_cancel_l (a x y : string) : a ++ x = a ++ y -> x = y.
Proof.
  induction a as [|c a IH]; cbn; [auto|]. intros [= H]. auto.
Qed.

Lemma append_cancel_r (x y s : string) : x ++ s = y ++ s -> x = y.
Proof.
  intros H.
  assert (Hlen : length x = length y).
  { apply (f_equal length) in H. rewrite !length_append in H. lia. }
  revert y H Hlen. induction x as [|c x IH]; intros [|d y] H Hlen;
    cbn in Hlen; try discriminate; [reflexivity|].
  cbn in H. injection H as -> H. f_equal. apply IH; [exact H | lia].
Qed.

Lemma prefix_append (p s : string) :
  prefix p s = true -> exists t, s = p ++ t.
Proof.
  revert p. induction s as [|c s IH]; intros [|d p]; cbn.
  - exists "". reflexivity.
  - discriminate.
  - exists (String c s). reflexivity.
  - destruct (ascii_dec d c) as [->|_]; [|discriminate].
    intros H. destruct (IH p H) as (t & ->). exists t. reflexivity.
Qed.

Lemma str_inj (a b : nat) : str a = str b -> a = b.
Proof.
  unfold str. intros H.
  apply (f_equal DecimalString.NilEmpty.uint_of_string) in H.
  rewrite !DecimalString.NilEmpty.usu in H. injection H as H.
  apply DecimalNat.Unsigned.to_uint_inj, H.
Qed.

Lemma parse_nat_str (n : nat) : parse_nat (str n) = Some n.
Proof.
  unfold parse_nat, str. rewrite DecimalString.NilEmpty.usu. cbn [option_map].
  now rewrite DecimalNat.Unsigned.of_to.
Qed.

Lemma parse_nat_zeros (k : nat) (s : string) (n : nat) :
  parse_nat s = Some n -> parse_nat (zeros k ++ s) = Some n.
Proof.
  intros H. induction k as [|k IH]; cbn [zeros append]; [exact H|].
  unfold parse_nat in *. cbn [DecimalString.NilEmpty.uint_of_string].
  destruct (DecimalString.NilEmpty.uint_of_string (zeros k ++ s)) as [d|];
    [|discriminate].
  cbn [option_map] in *. exact IH.
Qed.

Lemma length_zeros (k : nat) : length (zeros k) = k.
Proof.
  induction k as [|k IH]; cbn; [reflexivity | now rewrite IH].
Qed.

Lemma length_str_small (n : nat) : n < 10000 -> (length (str n) <= 4)%nat.
Proof.
  intros Hn.
  assert (H : forallb (fun n => (length (str n) <=? 4)%nat) (seq 0 10000) = true)
    by (vm_compute; reflexivity).
  rewrite forallb_forall in H. apply Nat.leb_le, H, in_seq. lia.
Qed.

(** X14. The grid file of a resolution [nx] is named
    [gridfiledir/fv3grid_c<digits>.nc4] where the digits read back as
    [nx]; there are at least four of them, exactly four below 10000.
    Two resolutions never share a grid file. *)
Theorem X14_grid_filename (gridfiledir : string) (nx : nat) :
  (exists digits,
     grid_filename gridfiledir nx
       = gridfiledir ++ "/fv3grid_c" ++ digits ++ ".nc4" /\
     parse_nat digits = Some nx /\
     (4 <= length digits)%nat /\
     (nx < 10000 -> length digits = 4)) /\
  (forall nx', grid_filename gridfiledir nx = grid_filename gridfiledir nx' ->
               nx = nx').
Proof.
  split.
  - exists (zfill 4 (str nx)). split; [reflexivity|].
    unfold zfill. split; [apply parse_nat_zeros, parse_nat_str|].
    rewrite length_append, length_zeros. split; [lia|].
    intros Hn. pose proof (length_str_small Hn). lia.
  - intros nx' H. unfold grid_filename in H.
    apply append_cancel_l in H.
    change ("/fv3grid_c" ++ zfill 4 (str nx) ++ ".nc4")
      with ("/fv3grid_c" ++ (zfill 4 (str nx) ++ ".nc4")) in H.
    apply append_cancel_l, append_cancel_r in H.
    assert (Hp : parse_nat (zfill 4 (str nx)) = parse_nat (zfill 4 (str nx')))
      by (now rewrite H).
    unfold zfill in Hp.
    rewrite (parse_nat_zeros _ _ (parse_nat_str nx)) in Hp.
    rewrite (parse_nat_zeros _ _ (parse_nat_str nx')) in Hp.
    now injection Hp.
Qed.

Lemma X14_grid_filename_witness :
  exists digits,
    grid_filename "/grids" 48 = "/grids" ++ "/fv3grid_c" ++ digits ++ ".nc4" /\
    length digits = 4.
Proof.
  destruct (X14_grid_filename "/grids" 48) as [(digits & H & _ & _ & Hlen) _].
  exists digits. split; [exact H | apply Hlen, Nat.ltb_lt; vm_compute; reflexivity].
Defined.

Lemma replace_extension (stem new : string) :
  only_extension stem ->
  replace_from 0 ".nc" new (stem ++ ".nc") = stem ++ new.
Proof.
  induction stem as [|c stem IH]; intros Hone.
  - cbn. now rewrite append_nil_r.
  - assert (Hp : prefix ".nc" (String c stem ++ ".nc") = false).
    { destruct (prefix ".nc" (String c stem ++ ".nc")) eqn:E; [|reflexivity].
      apply prefix_append in E. destruct E as (t & E).
      pose proof (Hone "" t E) as ->.
      apply (f_equal length) in E. rewrite length_append in E. cbn in E. lia. }
    change (String c stem ++ ".nc") with (String c (stem ++ ".nc")) in *.
    cbn [replace_from]. rewrite Hp. cbn [append]. f_equal. apply IH.
    intros pre post E. apply (Hone (String c pre) post). cbn [append].
    now rewrite E.
Qed.

(** X15. For a path [stem.nc] in which [".nc"] occurs only as the
    extension, the extension test of the per-tile layout passes and the
    file of tile [itile] is [stem.tile<itile+1>.nc]; different tiles
    have different files. *)
Theorem X15_tile_filename (stem : string) :
  only_extension stem ->
  endswith (stem ++ ".nc") ".nc" = true /\
  (forall itile,
     tile_filename (stem ++ ".nc") itile
     = stem ++ ".tile" ++ str (itile + 1) ++ ".nc") /\
  (forall i j,
     tile_filename (stem ++ ".nc") i = tile_filename (stem ++ ".nc") j ->
     i = j).
Proof.
  intros Hone.
  assert (Hname : forall itile,
            tile_filename (stem ++ ".nc") itile
            = stem ++ ".tile" ++ str (itile + 1) ++ ".nc").
  { intros itile. unfold tile_filename, replace.
    apply replace_extension, Hone. }
  split; [|split; [exact Hname|]].
  - clear. induction stem as [|c stem IH]; [reflexivity|].
    cbn [append endswith]. rewrite IH. apply Bool.orb_true_r.
  - intros i j H. rewrite !Hname in H.
    apply append_cancel_l in H.
    change (".tile" ++ str (i + 1) ++ ".nc")
      with (".tile" ++ (str (i + 1) ++ ".nc")) in H.
    change (".tile" ++ str (j + 1) ++ ".nc")
      with (".tile" ++ (str (j + 1) ++ ".nc")) in H.
    apply append_cancel_l, append_cancel_r, str_inj in H. lia.
Qed.

Lemma only_extension_bkg : only_extension "bkg".
Proof.
  intros pre post H.
  destruct pre as [|a [|b [|c [|d pre]]]]; cbn in H; try discriminate.
  - inversion H. reflexivity.
  - exfalso. inversion H as [[Ha Hb Hc Hd Hrest]].
    destruct pre as [|x [|y [|z pre]]]; cbn in Hrest; discriminate.
Qed.

Lemma X15_tile_filename_witness :
  tile_filename ("bkg" ++ ".nc") 2 = "bkg" ++ ".tile" ++ str (2 + 1) ++ ".nc".
Proof.
  destruct (X15_tile_filename only_extension_bkg) as (_ & H & _).
  apply H.
Defined.

End PathFacts.

(** ** The two layouts of the input *)






(** ** Values drawn and the value range *)












